(** * PKG Revival: capability model, strategy decision, SEA pipeline,
      hybrid orchestrator and extended version resolver.

    A shallow embedding of [lib/node-support.ts], [lib/sea-builder.ts],
    [lib/hybrid-builder.ts] and [lib/pkg-fetch-extended.ts].

    JavaScript strings are modelled as [string] (the bytes of their UTF-8
    encoding), numbers produced by [parseInt] as [number] (an integer or
    NaN), optional fields as [option], exceptions as the [Throw] outcome of
    a state-and-error monad over a [World] (the file system and the log of
    the effects performed so far).  Everything the code obtains from outside
    (child processes, file-system faults, the clock, Node's [path] module,
    [pkg-fetch]) is read from an [Env] record the definitions are
    parameterised by.  The outcomes of a computation are those of a promise
    that settles; a [Host] tells which child processes can be started at
    all, and where a run ends when one cannot. *)

From Stdlib Require Import ZArith List Bool Ascii String Lia.
From Stdlib Require Import DecimalString DecimalNat DecimalFacts.
From stdpp Require Import base option strings gmap.
Import ListNotations.

Local Open Scope string_scope.
Local Open Scope Z_scope.

(** ** JavaScript values *)

(** The result of [parseInt]: an integer, or NaN. *)
Inductive number : Type :=
| NaN
| Num (z : Z).

(** [a >= b] on numbers; every comparison with NaN is false. *)
Definition num_ge (a : number) (b : Z) : bool :=
  match a with
  | NaN => false
  | Num z => b <=? z
  end.

Definition num_le (a : number) (b : Z) : bool :=
  match a with
  | NaN => false
  | Num z => z <=? b
  end.

(** [s.startsWith(p)], also [/^p/.test(s)] for a literal [p]. *)
Definition startsWith (s p : string) : bool := String.prefix p s.

Fixpoint drop_chars (n : nat) (s : string) : string :=
  match n, s with
  | O, _ => s
  | S n', String _ t => drop_chars n' t
  | S _, EmptyString => EmptyString
  end.

(** [s.replace(pat, rep)] with a string pattern: the first occurrence only. *)
Fixpoint replace (pat rep s : string) : string :=
  if String.prefix pat s then rep +:+ drop_chars (String.length pat) s
  else match s with
       | EmptyString => EmptyString
       | String c t => String c (replace pat rep t)
       end.

(** [hay.includes(needle)]. *)
Fixpoint includes (hay needle : string) : bool :=
  String.prefix needle hay ||
  match hay with
  | EmptyString => false
  | String _ t => includes t needle
  end.

(** [l.includes(x)] on an array of strings. *)
Definition array_includes (l : list string) (x : string) : bool :=
  existsb (String.eqb x) l.

(** [l.join(sep)]. *)
Fixpoint join (sep : string) (l : list string) : string :=
  match l with
  | [] => ""
  | [x] => x
  | x :: t => x +:+ sep +:+ join sep t
  end.

(** The white space and line terminators of the ASCII range. *)
Definition is_white_space (c : ascii) : bool :=
  let n := nat_of_ascii c in
  ((9 <=? n)%nat && (n <=? 13)%nat) || (n =? 32)%nat.

Definition digit_of (c : ascii) : option Z :=
  let n := Z.of_nat (nat_of_ascii c) in
  if (48 <=? n) && (n <=? 57) then Some (n - 48) else None.

(** The two bytes of U+00A0. *)
Definition is_nbsp (c1 c2 : ascii) : bool :=
  (nat_of_ascii c1 =? 194)%nat && (nat_of_ascii c2 =? 160)%nat.

(** The three bytes of the other white space and line terminators beyond
    the ASCII range: U+1680, U+2000 to U+200A, U+2028, U+2029, U+202F,
    U+205F, U+3000 and U+FEFF. *)
Definition is_wide_space (c1 c2 c3 : ascii) : bool :=
  let '(n1, n2, n3) := (nat_of_ascii c1, nat_of_ascii c2, nat_of_ascii c3) in
  ((n1 =? 225) && (n2 =? 154) && (n3 =? 128))%nat
  || ((n1 =? 226) && (n2 =? 128)
      && (((128 <=? n3) && (n3 <=? 138)) || (n3 =? 168) || (n3 =? 169)
          || (n3 =? 175)))%nat
  || ((n1 =? 226) && (n2 =? 129) && (n3 =? 159))%nat
  || ((n1 =? 227) && (n2 =? 128) && (n3 =? 128))%nat
  || ((n1 =? 239) && (n2 =? 187) && (n3 =? 191))%nat.

Fixpoint skip_white_space (s : string) : string :=
  match s with
  | String c t =>
      if is_white_space c then skip_white_space t
      else
        match t with
        | String c2 t2 =>
            if is_nbsp c c2 then skip_white_space t2
            else
              match t2 with
              | String c3 t3 =>
                  if is_wide_space c c2 c3 then skip_white_space t3 else s
              | EmptyString => s
              end
        | EmptyString => s
        end
  | EmptyString => s
  end.

(** The longest prefix of decimal digits, as an integer; [acc] is [None]
    until a first digit has been read. *)
Fixpoint leading_digits (acc : option Z) (s : string) : option Z :=
  match s with
  | String c t =>
      match digit_of c with
      | Some d => leading_digits (Some (10 * default 0 acc + d)) t
      | None => acc
      end
  | EmptyString => acc
  end.

(** [parseInt(s, 10)]: leading white space is skipped, one sign is read,
    then the longest run of digits; NaN when there is no digit.  The result
    is the exact integer: it is the number JavaScript returns as long as it
    is below 2^53 (above, JavaScript rounds to a double). *)
Definition parseInt (s : string) : number :=
  let s1 := skip_white_space s in
  let '(neg, s2) :=
    match s1 with
    | String "-"%char t => (true, t)
    | String "+"%char t => (false, t)
    | _ => (false, s1)
    end in
  match leading_digits None s2 with
  | None => NaN
  | Some n => Num (if neg then - n else n)
  end.

(** ** node-support.ts *)

(** Object literal, in insertion order (the order of [Object.entries]). *)
Definition EXTENDED_ABI_MAPPING : list (string * string) :=
  [ ("m14", "node0.12"); ("m46", "node4"); ("m47", "node5"); ("m48", "node6");
    ("m51", "node7"); ("m57", "node8"); ("m59", "node9"); ("m64", "node10");
    ("m67", "node11"); ("m72", "node12"); ("m79", "node13"); ("m83", "node14");
    ("m88", "node15"); ("m93", "node16"); ("m102", "node17");
    ("m108", "node18"); ("m111", "node19"); ("m115", "node20");
    ("m120", "node21"); ("m127", "node22");
    ("m131", "node23"); ("m137", "node24") ].

Definition SEA_SUPPORTED_VERSIONS : list string :=
  ["node19"; "node20"; "node21"; "node22"; "node23"; "node24"].

Definition SEA_STABLE_VERSIONS : list string :=
  ["node21"; "node22"; "node23"; "node24"].

Record NodeVersionInfo : Type := {
  info_version : string;
  info_abi : number;
  info_supportsSEA : bool;
  info_stableSEA : bool;
  info_isSupported : bool
}.

Record SEACapabilities : Type := {
  hasNativeSEA : bool;
  supportsAssets : bool;
  supportsSnapshot : bool;
  supportsCodeCache : bool;
  requiresPostject : bool
}.

Definition enhancedIsValidNodeRange (nodeRange : string) : bool :=
  if String.eqb nodeRange "latest" then true
  else if negb (startsWith nodeRange "node") then false
  else
    let versionNumber := parseInt (replace "node" "" nodeRange) in
    num_ge versionNumber 8 && num_le versionNumber 24.

(** The loop over [Object.entries(EXTENDED_ABI_MAPPING)] with its [break]. *)
Fixpoint find_abi (entries : list (string * string)) (version : string)
  : number :=
  match entries with
  | [] => Num 0
  | (abiStr, nodeVer) :: rest =>
      if String.eqb nodeVer version then parseInt (replace "m" "" abiStr)
      else find_abi rest version
  end.

Definition getNodeVersionInfo (nodeRange : string) : NodeVersionInfo :=
  let version :=
    if startsWith nodeRange "node" then nodeRange else "node" +:+ nodeRange in
  let versionNumber := parseInt (replace "node" "" version) in
  {| info_version := version;
     info_abi := find_abi EXTENDED_ABI_MAPPING version;
     info_supportsSEA := array_includes SEA_SUPPORTED_VERSIONS version;
     info_stableSEA := array_includes SEA_STABLE_VERSIONS version;
     info_isSupported := num_ge versionNumber 8 && num_le versionNumber 24 |}.

Definition supportsSEA (nodeRange : string) : bool :=
  info_supportsSEA (getNodeVersionInfo nodeRange).

Definition hasStableSEA (nodeRange : string) : bool :=
  info_stableSEA (getNodeVersionInfo nodeRange).

Definition getSEACapabilities (nodeRange : string) : SEACapabilities :=
  let info := getNodeVersionInfo nodeRange in
  let versionNumber := parseInt (replace "node" "" (info_version info)) in
  if negb (info_supportsSEA info) then
    {| hasNativeSEA := false; supportsAssets := false;
       supportsSnapshot := false; supportsCodeCache := false;
       requiresPostject := false |}
  else
    {| hasNativeSEA := true;
       supportsAssets := num_ge versionNumber 20;
       supportsSnapshot := num_ge versionNumber 20;
       supportsCodeCache := num_ge versionNumber 20;
       requiresPostject := true |}.

Inductive Strategy : Type :=
| StrategySea
| StrategyTraditional
| StrategyHybrid.

Record StrategyOptions : Type := {
  so_crossCompile : option bool;
  so_hasComplexRequires : option bool;
  so_hasAssets : option bool
}.

Definition getBuildStrategy (nodeRange : string) (options : StrategyOptions)
  : Strategy :=
  let info := getNodeVersionInfo nodeRange in
  let crossCompile := default false (so_crossCompile options) in
  let hasComplexRequires := default false (so_hasComplexRequires options) in
  if negb (info_isSupported info) then StrategyTraditional
  else if crossCompile then StrategyTraditional
  else if hasComplexRequires then StrategyTraditional
  else if info_stableSEA info && negb hasComplexRequires then StrategySea
  else if info_supportsSEA info then StrategyHybrid
  else StrategyTraditional.

Record Target : Type := {
  nodeRange : string;
  platform : string;
  arch : string
}.

(** [{ valid: boolean; reason?: string }]: the reason is present exactly on
    the invalid results. *)
Inductive Validation : Type :=
| Valid
| Invalid (reason : string).

Definition supportedPlatforms : list string :=
  ["linux"; "macos"; "win"; "alpine"; "linuxstatic"].

Definition supportedArchs : list string := ["x64"; "arm64"; "x86"].

Definition validateTarget (target : Target) : Validation :=
  let info := getNodeVersionInfo (nodeRange target) in
  if negb (info_isSupported info) then
    Invalid ("Node.js version " +:+ nodeRange target
             +:+ " is not supported. Supported versions: 8-24")
  else if negb (array_includes supportedPlatforms (platform target)) then
    Invalid ("Platform " +:+ platform target
             +:+ " is not supported. Supported platforms: "
             +:+ join ", " supportedPlatforms)
  else if negb (array_includes supportedArchs (arch target)) then
    Invalid ("Architecture " +:+ arch target
             +:+ " is not supported. Supported architectures: "
             +:+ join ", " supportedArchs)
  else Valid.

(** ** The outside world *)

(** sea-builder.ts, [SEAConfig]; an absent optional field is [None]. *)
Record SEAConfig : Type := {
  cfg_main : string;
  cfg_output : string;
  cfg_disableExperimentalSEAWarning : option bool;
  cfg_useSnapshot : option bool;
  cfg_useCodeCache : option bool;
  cfg_assets : option (gmap string string)
}.

(** File-system calls of the code: [fs.mkdir(p, {recursive})],
    [fs.writeFile(p, JSON.stringify(config))], [fs.copyFile], [fs.rename],
    [fs.stat], [fs.rm(p, {recursive, force})] and [fs.access]. *)
Inductive FsOp : Type :=
| Mkdir (p : string)
| WriteFile (p : string) (data : SEAConfig)
| CopyFile (src dst : string)
| Rename (src dst : string)
| Stat (p : string)
| Rm (p : string)
| Access (p : string).

Inductive Event : Type :=
| EvSpawn (command : string) (args : list string)
| EvFs (op : FsOp)
| EvNeed (nodeRange platform arch : string)
(* [need] called with, as its [nodeRange], the value every object inherits
   under [key] *)
| EvNeedInherited (key platform arch : string).

(** Which paths exist on disk. *)
Definition Disk : Type := string -> bool.

Record World : Type := {
  w_exists : Disk;
  w_trace : list Event   (* most recent first *)
}.

(** How a child that has been started ends: the ['close'] event with its
    exit code (null when killed by a signal) and the collected output, or
    [spawn] throwing.  A command that cannot be started at all is the
    subject of [Host], below. *)
Inductive SpawnOutcome : Type :=
| Closed (exitCode : option Z) (stdout stderr : string)
| SpawnThrows (message : string).

Inductive Res (A : Type) : Type :=
| Ok (a : A)
| Throw (message : string).
Arguments Ok {A} a.
Arguments Throw {A} message.

Record Env : Type := {
  path_join : string -> string -> string;
  path_basename : string -> string -> string;
  path_extname : string -> string;
  path_dirname : string -> string;
  path_relative : string -> string -> string;
  process_cwd : string;
  process_execPath : string;
  Date_now : World -> Z;
  (* a child process: how it ends and the disk it leaves *)
  spawn : string -> list string -> World -> SpawnOutcome * Disk;
  (* [Some msg] when the file-system call throws *)
  fs_fault : FsOp -> World -> option string;
  (* what a throwing call leaves behind: for a removal the paths of its
     tree that survive, for the other calls the disk as a whole *)
  fs_left : FsOp -> World -> Disk;
  (* [fs_within p q]: the path [q] names the directory [p] or something
     inside it, whatever its spelling (separator, absolute or relative) *)
  fs_within : string -> string -> bool;
  stat_size : string -> World -> Z;
  (* pkg-fetch's [need({nodeRange, platform, arch})] *)
  pkg_fetch_need : string -> string -> string -> World -> Res string * Disk;
  (* the same call when [nodeRange] is not a string but the value every
     object inherits under the given key *)
  pkg_fetch_need_inherited :
    string -> string -> string -> World -> Res string * Disk
}.

(** ** State and exceptions *)

Definition M (A : Type) : Type := World -> Res A * World.

Definition ret {A} (a : A) : M A := fun w => (Ok a, w).

Definition throw {A} (message : string) : M A := fun w => (Throw message, w).

Definition bind {A B} (m : M A) (k : A -> M B) : M B :=
  fun w =>
    match m w with
    | (Ok a, w1) => k a w1
    | (Throw e, w1) => (Throw e, w1)
    end.

Notation "'let*' x ':=' m 'in' k" := (bind m (fun x => k))
  (at level 10, x name, m at level 100, k at level 200,
   format "'[v' 'let*'  x  ':='  m  'in' '/' k ']'").

(** [try { m } catch (error) { handler(message of error) }]. *)
Definition try_catch {A} (m : M A) (handler : string -> M A) : M A :=
  fun w =>
    match m w with
    | (Ok a, w1) => (Ok a, w1)
    | (Throw e, w1) => handler e w1
    end.

(** [try { m } finally { cleanup }]: the cleanup runs on both outcomes, and
    an exception of the cleanup replaces the outcome of [m]. *)
Definition finally {A} (m : M A) (cleanup : M unit) : M A :=
  fun w =>
    let '(r, w1) := m w in
    match cleanup w1 with
    | (Ok _, w2) => (r, w2)
    | (Throw e, w2) => (Throw e, w2)
    end.

Definition log_event (e : Event) (w : World) : World :=
  {| w_exists := w_exists w; w_trace := e :: w_trace w |}.

Definition set_path (p : string) (b : bool) (d : Disk) : Disk :=
  fun q => if String.eqb q p then b else d q.

(** [q] is [p], or names [p] or something below it. *)
Definition at_or_below (env : Env) (p q : string) : bool :=
  String.eqb q p || fs_within env p q.

Definition remove_tree (env : Env) (p : string) (d : Disk) : Disk :=
  fun q => if at_or_below env p q then false else d q.

(** What a file-system call that does not throw does to the disk. *)
Definition fs_effect (env : Env) (op : FsOp) (d : Disk) : Disk :=
  match op with
  | Mkdir p => set_path p true d
  | WriteFile p _ => set_path p true d
  | CopyFile _ dst => set_path dst true d
  | Rename src dst => set_path dst true (set_path src false d)
  | Stat _ => d
  | Rm p => remove_tree env p d
  | Access _ => d
  end.

(** What a file-system call that throws has done to the disk.  The calls
    that only read change nothing.  A recursive removal is not atomic: it
    has removed what it could, all of it at or below its directory, before
    it throws.  For the other calls the disk is the one [fs_left] gives. *)
Definition fs_fault_effect (env : Env) (op : FsOp) (w : World) : Disk :=
  match op with
  | Stat _ | Access _ => w_exists w
  | Rm p =>
      fun q =>
        if at_or_below env p q then w_exists w q && fs_left env op w q
        else w_exists w q
  | _ => fs_left env op w
  end.

(** The events of [w'] that [w] does not have yet. *)
Definition new_events (w w' : World) : list Event :=
  firstn (length (w_trace w') - length (w_trace w)) (w_trace w').

(** The directories created by [fs.mkdir] in a run. *)
Fixpoint dirs_made (evs : list Event) : list string :=
  match evs with
  | [] => []
  | EvFs (Mkdir p) :: rest => p :: dirs_made rest
  | _ :: rest => dirs_made rest
  end.

Record CommandResult : Type := {
  exitCode : Z;
  stdout : string;
  stderr : string
}.

Record SEABuildOptions : Type := {
  sea_entrypoint : string;
  sea_output : string;
  sea_nodeVersion : string;
  sea_platform : string;
  sea_arch : string;
  sea_assets : option (list string);
  sea_useSnapshot : option bool;
  sea_useCodeCache : option bool;
  sea_signBinary : option bool
}.

Record SEABuildResult : Type := {
  res_success : bool;
  res_outputPath : string;
  res_size : Z;
  res_buildTime : Z;
  res_warnings : list string;
  res_errors : list string
}.

Record SEABuilder : Type := { tempDir : string }.

(** Truthiness of an optional boolean. *)
Definition truthy (b : option bool) : bool := default false b.

(** [b !== false]. *)
Definition not_false (b : option bool) : bool :=
  match b with
  | Some false => false
  | _ => true
  end.

Section SEA.

Variable env : Env.

Definition date_now : M Z := fun w => (Ok (Date_now env w), w).

Definition fs_call (op : FsOp) : M unit :=
  fun w =>
    match fs_fault env op w with
    | Some msg =>
        (Throw msg, {| w_exists := fs_fault_effect env op w;
                       w_trace := EvFs op :: w_trace w |})
    | None =>
        (Ok tt, {| w_exists := fs_effect env op (w_exists w);
                   w_trace := EvFs op :: w_trace w |})
    end.

Definition fs_stat (p : string) : M Z :=
  fun w =>
    match fs_call (Stat p) w with
    | (Ok _, w1) => (Ok (stat_size env p w), w1)
    | (Throw e, w1) => (Throw e, w1)
    end.

(** sea-builder.ts, [SEABuilder.constructor]. *)
Definition new_SEABuilder : SEABuilder :=
  {| tempDir := path_join env (process_cwd env) ".pkg-temp" |}.

(** sea-builder.ts, [runCommand]: the promise resolves when the child
    closes, with [exitCode || 0] and the collected output, and rejects when
    [spawn] itself throws.  A child that cannot be started gives the promise
    no outcome at all: see [Host] below. *)
Definition runCommand (command : string) (args : list string)
  : M CommandResult :=
  fun w =>
    let '(outcome, disk) := spawn env command args w in
    let w1 := {| w_exists := disk;
                 w_trace := EvSpawn command args :: w_trace w |} in
    match outcome with
    | Closed code out err =>
        (Ok {| exitCode := default 0 code; stdout := out; stderr := err |}, w1)
    | SpawnThrows msg => (Throw msg, w1)
    end.

Definition canUseSEA (self : SEABuilder) (nodeVersion : string) : M bool :=
  try_catch
    (if negb (hasStableSEA nodeVersion) then ret false
     else
       let* result := runCommand "node" ["--help"] in
       ret (includes (stdout result) "--experimental-sea-config"))
    (fun _ => ret false).

Definition ensureTempDir (self : SEABuilder) : M unit :=
  try_catch (fs_call (Mkdir (tempDir self))) (fun _ => ret tt).

Definition cleanup (self : SEABuilder) : M unit :=
  try_catch (fs_call (Rm (tempDir self))) (fun _ => ret tt).

(** [seaAssets[key] = asset] on the object literal [seaAssets]: an own
    property is set, except under the key ['__proto__'], where the
    assignment reaches the setter every object inherits, which ignores a
    string and stores nothing. *)
Definition set_property (key value : string) (object : gmap string string)
  : gmap string string :=
  if String.eqb key "__proto__" then object else <[key := value]> object.

(** The loop of [convertAssetsToSEAFormat] over the disk [d]. *)
Definition convertAssets (d : Disk) (assets : list string)
  : gmap string string :=
  fold_left
    (fun seaAssets asset =>
       if d asset
       then set_property (path_relative env (process_cwd env) asset) asset
              seaAssets
       else seaAssets)
    assets ∅.

Definition convertAssetsToSEAFormat (self : SEABuilder) (assets : list string)
  : M (gmap string string) :=
  fun w => (Ok (convertAssets (w_exists w) assets), w).

(** The record [createSEAConfig] builds, before it is written. *)
Definition seaConfigOf (self : SEABuilder) (options : SEABuildOptions)
  (seaAssets : option (gmap string string)) : SEAConfig :=
  let capabilities := getSEACapabilities (sea_nodeVersion options) in
  {| cfg_main := sea_entrypoint options;
     cfg_output := path_join env (tempDir self) "sea-prep.blob";
     cfg_disableExperimentalSEAWarning := Some true;
     cfg_useSnapshot :=
       if supportsSnapshot capabilities && truthy (sea_useSnapshot options)
       then Some true else None;
     cfg_useCodeCache :=
       if supportsCodeCache capabilities
          && not_false (sea_useCodeCache options)
       then Some true else None;
     cfg_assets := seaAssets |}.

Definition createSEAConfig (self : SEABuilder) (options : SEABuildOptions)
  : M SEAConfig :=
  let capabilities := getSEACapabilities (sea_nodeVersion options) in
  let* seaAssets :=
    match sea_assets options with
    | Some assets =>
        if supportsAssets capabilities then
          let* converted := convertAssetsToSEAFormat self assets in
          ret (Some converted)
        else ret None
    | None => ret None
    end in
  let config := seaConfigOf self options seaAssets in
  let configPath := path_join env (tempDir self) "sea-config.json" in
  let* _ := fs_call (WriteFile configPath config) in
  ret config.

Definition generateBlob (self : SEABuilder) (config : SEAConfig) : M unit :=
  let configPath := path_join env (tempDir self) "sea-config.json" in
  let* result := runCommand "node" ["--experimental-sea-config"; configPath] in
  if negb (exitCode result =? 0)
  then throw ("Failed to generate SEA blob: " +:+ stderr result)
  else ret tt.

Definition copyNodeBinary (self : SEABuilder) (options : SEABuildOptions)
  : M string :=
  let extension :=
    if String.eqb (sea_platform options) "win" then ".exe" else "" in
  let binaryName :=
    path_basename env (sea_output options)
      (path_extname env (sea_output options)) +:+ extension in
  let binaryPath := path_join env (tempDir self) binaryName in
  let* _ := fs_call (CopyFile (process_execPath env) binaryPath) in
  ret binaryPath.

Definition removeSignature (self : SEABuilder) (binaryPath platform : string)
  : M unit :=
  if String.eqb platform "macos" then
    let* _ := runCommand "codesign" ["--remove-signature"; binaryPath] in
    ret tt
  else if String.eqb platform "win" then
    try_catch
      (let* _ := runCommand "signtool" ["remove"; "/s"; binaryPath] in ret tt)
      (fun _ => ret tt)
  else ret tt.

Definition injectBlob (self : SEABuilder) (binaryPath blobPath platform : string)
  : M unit :=
  let args :=
    [binaryPath; "NODE_SEA_BLOB"; blobPath; "--sentinel-fuse";
     "NODE_SEA_FUSE_fce680ab2cc467b6e072b8b5df1996b2"] in
  let args :=
    if String.eqb platform "macos"
    then (args ++ ["--macho-segment-name"; "NODE_SEA"])%list else args in
  let* result := runCommand "npx" ("postject" :: args) in
  if negb (exitCode result =? 0)
  then throw ("Failed to inject blob: " +:+ stderr result)
  else ret tt.

Definition signBinary (self : SEABuilder) (binaryPath platform : string)
  : M unit :=
  if String.eqb platform "macos" then
    let* _ := runCommand "codesign" ["--sign"; "-"; binaryPath] in ret tt
  else if String.eqb platform "win" then
    try_catch
      (let* _ :=
         runCommand "signtool" ["sign"; "/fd"; "SHA256"; binaryPath] in
       ret tt)
      (fun _ => ret tt)
  else ret tt.

Definition moveToFinalLocation (self : SEABuilder) (tempPath outputPath : string)
  : M string :=
  let* _ := fs_call (Rename tempPath outputPath) in
  ret outputPath.

Definition is_macos_or_win (platform : string) : bool :=
  String.eqb platform "macos" || String.eqb platform "win".

Definition sea_unavailable (nodeVersion : string) : string :=
  "Node.js " +:+ nodeVersion
  +:+ " does not support SEA or SEA is not available".

(** What [build] does once [canUseSEA] has answered true: the body of the
    [try] block after the capability check. *)
Definition build_steps (self : SEABuilder) (options : SEABuildOptions)
  (startTime : Z) : M SEABuildResult :=
  let* _ := ensureTempDir self in
  let* seaConfig := createSEAConfig self options in
  let* _ := generateBlob self seaConfig in
  let* binaryPath := copyNodeBinary self options in
  let* _ :=
    if is_macos_or_win (sea_platform options)
    then removeSignature self binaryPath (sea_platform options)
    else ret tt in
  let* _ :=
    injectBlob self binaryPath (cfg_output seaConfig) (sea_platform options) in
  let* _ :=
    if truthy (sea_signBinary options)
       && is_macos_or_win (sea_platform options)
    then signBinary self binaryPath (sea_platform options)
    else ret tt in
  let* finalPath := moveToFinalLocation self binaryPath (sea_output options) in
  let* size := fs_stat finalPath in
  let* now := date_now in
  ret {| res_success := true; res_outputPath := finalPath;
         res_size := size; res_buildTime := now - startTime;
         res_warnings := []; res_errors := [] |}.

Definition failed_build (startTime : Z) (errorMessage : string)
  : M SEABuildResult :=
  let* now := date_now in
  ret {| res_success := false; res_outputPath := "";
         res_size := 0; res_buildTime := now - startTime;
         res_warnings := []; res_errors := [errorMessage] |}.

(** The [try { ... } catch (error) { ... }] of [build], without its
    [finally]. *)
Definition build_try (self : SEABuilder) (options : SEABuildOptions)
  (startTime : Z) : M SEABuildResult :=
  try_catch
    (let* canUse := canUseSEA self (sea_nodeVersion options) in
     if negb canUse
     then throw (sea_unavailable (sea_nodeVersion options))
     else build_steps self options startTime)
    (failed_build startTime).

(** sea-builder.ts, [SEABuilder.build]. *)
Definition build (self : SEABuilder) (options : SEABuildOptions)
  : M SEABuildResult :=
  let* startTime := date_now in
  finally (build_try self options startTime) (cleanup self).

End SEA.

(** ** A tool that cannot be started

    [runCommand] (sea-builder.ts, lines 323-345) registers a listener for
    ['close'] and none for ['error'].  A child that cannot be started at
    all (its command is not installed, say) never closes: Node emits
    ['error'] on it, and an ['error'] event without a listener is an
    uncaught exception.  The promise of [runCommand] then never settles, no
    [catch] and no [finally] of a caller runs, and the process ends.

    [spawn] of an [Env] tells how the children that were started end; a
    [Host] tells, for a command, its arguments and the log so far, whether
    the child can be started.  A run on a host goes as the functions above
    say up to the first spawn the host cannot start, and ends there. *)
Definition Host : Type := string -> list string -> list Event -> bool.

(** The spawn at which the process ends, if any, in a run that added the
    events [evs] (most recent first) to the log [before]. *)
Fixpoint ended_at (host : Host) (before evs : list Event) : option Event :=
  match evs with
  | [] => None
  | e :: earlier =>
      match ended_at host before earlier with
      | Some failed => Some failed
      | None =>
          match e with
          | EvSpawn command args =>
              if host command args (earlier ++ before)%list then None
              else Some e
          | _ => None
          end
      end
  end.

(** The events the run has performed on the host: those up to the spawn at
    which the process ends, the attempt included. *)
Fixpoint performed (host : Host) (before evs : list Event) : list Event :=
  match evs with
  | [] => []
  | e :: earlier =>
      match ended_at host before earlier with
      | Some _ => performed host before earlier
      | None => e :: performed host before earlier
      end
  end.

(** ** hybrid-builder.ts *)

Inductive BuildMode : Type :=
| Sea
| Traditional.

Inductive ForceBuildMode : Type :=
| ForceSea
| ForceTraditional
| ForceAuto.

Record HybridBuildOptions : Type := {
  hyb_entrypoint : string;
  hyb_output : string;
  hyb_targets : list Target;
  hyb_assets : option (list string);
  hyb_useSnapshot : option bool;
  hyb_useCodeCache : option bool;
  hyb_forceBuildMode : option ForceBuildMode;
  hyb_crossCompile : option bool;
  hyb_hasComplexRequires : option bool;
  hyb_signBinary : option bool
}.

Record BuildDecision : Type := {
  dec_target : Target;
  dec_buildMode : BuildMode;
  dec_reason : string;
  dec_canUseSEA : bool;
  dec_shouldUseSEA : bool
}.

(** One element of [HybridBuildResult.results]. *)
Record TargetResult : Type := {
  tr_target : Target;
  tr_buildMode : BuildMode;
  tr_result : SEABuildResult;
  tr_outputPath : string
}.

Record HybridBuildResult : Type := {
  agg_success : bool;
  agg_results : list TargetResult;
  agg_totalTime : Z;
  agg_warnings : list string;
  agg_errors : list string
}.

Record HybridBuilder : Type := { seaBuilder : SEABuilder }.

Definition mode_eqb (a b : BuildMode) : bool :=
  match a, b with
  | Sea, Sea | Traditional, Traditional => true
  | _, _ => false
  end.

Definition mode_name (m : BuildMode) : string :=
  match m with
  | Sea => "sea"
  | Traditional => "traditional"
  end.

(** [options.forceBuildMode && options.forceBuildMode !== 'auto']: the mode
    the user forced, if any. *)
Definition forced_mode (f : option ForceBuildMode) : option BuildMode :=
  match f with
  | Some ForceSea => Some Sea
  | Some ForceTraditional => Some Traditional
  | Some ForceAuto | None => None
  end.

Definition target_name (t : Target) : string :=
  nodeRange t +:+ "-" +:+ platform t +:+ "-" +:+ arch t.

Section Hybrid.

Variable env : Env.

(** hybrid-builder.ts, [HybridBuilder.constructor]. *)
Definition new_HybridBuilder : HybridBuilder :=
  {| seaBuilder := new_SEABuilder env |}.

Definition decideBuildStrategy (self : HybridBuilder) (target : Target)
  (options : HybridBuildOptions) : M BuildDecision :=
  match validateTarget target with
  | Invalid reason =>
      ret {| dec_target := target; dec_buildMode := Traditional;
             dec_reason := "Target validation failed: " +:+ reason;
             dec_canUseSEA := false; dec_shouldUseSEA := false |}
  | Valid =>
      match forced_mode (hyb_forceBuildMode options) with
      | Some forced =>
          let* canUse := canUseSEA env (seaBuilder self) (nodeRange target) in
          ret {| dec_target := target; dec_buildMode := forced;
                 dec_reason := "User forced " +:+ mode_name forced +:+ " mode";
                 dec_canUseSEA := canUse;
                 dec_shouldUseSEA := mode_eqb forced Sea && canUse |}
      | None =>
          let* canUse := canUseSEA env (seaBuilder self) (nodeRange target) in
          if negb canUse then
            ret {| dec_target := target; dec_buildMode := Traditional;
                   dec_reason := "Node.js " +:+ nodeRange target
                                 +:+ " does not support SEA";
                   dec_canUseSEA := false; dec_shouldUseSEA := false |}
          else
            let strategy :=
              getBuildStrategy (nodeRange target)
                {| so_crossCompile := hyb_crossCompile options;
                   so_hasComplexRequires := hyb_hasComplexRequires options;
                   so_hasAssets :=
                     Some (match hyb_assets options with
                           | Some l => (0 <? length l)%nat
                           | None => false
                           end) |} in
            let '(buildMode, reason) :=
              match strategy with
              | StrategySea =>
                  (Sea, "Optimal for simple projects with stable SEA support")
              | StrategyTraditional =>
                  (Traditional,
                   "Required for complex projects or cross-compilation")
              | StrategyHybrid =>
                  if info_stableSEA (getNodeVersionInfo (nodeRange target))
                  then (Sea, "Using SEA for better performance (hybrid mode)")
                  else (Traditional,
                        "Using traditional PKG for reliability (hybrid mode)")
              end in
            ret {| dec_target := target; dec_buildMode := buildMode;
                   dec_reason := reason; dec_canUseSEA := canUse;
                   dec_shouldUseSEA := mode_eqb buildMode Sea |}
      end
  end.

Fixpoint analyzeBuildDecisions_loop (self : HybridBuilder)
  (targets : list Target) (options : HybridBuildOptions)
  (decisions : list BuildDecision) : M (list BuildDecision) :=
  match targets with
  | [] => ret decisions
  | target :: rest =>
      let* decision := decideBuildStrategy self target options in
      analyzeBuildDecisions_loop self rest options (decisions ++ [decision])
  end.

Definition analyzeBuildDecisions (self : HybridBuilder)
  (options : HybridBuildOptions) : M (list BuildDecision) :=
  analyzeBuildDecisions_loop self (hyb_targets options) options [].

Definition generateTargetOutput (self : HybridBuilder) (target : Target)
  (baseOutput : string) : string :=
  let ext := if String.eqb (platform target) "win" then ".exe" else "" in
  let baseName :=
    path_basename env baseOutput (path_extname env baseOutput) in
  let dir := path_dirname env baseOutput in
  path_join env dir (baseName +:+ "-" +:+ target_name target +:+ ext).

Definition buildSingleTarget (self : HybridBuilder) (decision : BuildDecision)
  (options : HybridBuildOptions) : M TargetResult :=
  let targetOutput :=
    generateTargetOutput self (dec_target decision) (hyb_output options) in
  match dec_buildMode decision with
  | Sea =>
      let seaOptions :=
        {| sea_entrypoint := hyb_entrypoint options;
           sea_output := targetOutput;
           sea_nodeVersion := nodeRange (dec_target decision);
           sea_platform := platform (dec_target decision);
           sea_arch := arch (dec_target decision);
           sea_assets := hyb_assets options;
           sea_useSnapshot := hyb_useSnapshot options;
           sea_useCodeCache := hyb_useCodeCache options;
           sea_signBinary := hyb_signBinary options |} in
      let* result := build env (seaBuilder self) seaOptions in
      ret {| tr_target := dec_target decision; tr_buildMode := Sea;
             tr_result := result; tr_outputPath := res_outputPath result |}
  | Traditional =>
      ret {| tr_target := dec_target decision; tr_buildMode := Traditional;
             tr_result :=
               {| res_success := false; res_outputPath := targetOutput;
                  res_size := 0; res_buildTime := 0; res_warnings := [];
                  res_errors :=
                    ["Traditional PKG build not yet integrated in hybrid builder"]
               |};
             tr_outputPath := targetOutput |}
  end.

(** The [for (const decision of decisions)] loop of [build]: every
    exception of an iteration is caught inside it, so the loop itself
    cannot throw; [results] and [errors] are the two arrays it pushes to. *)
Fixpoint build_targets (self : HybridBuilder) (decisions : list BuildDecision)
  (options : HybridBuildOptions) (results : list TargetResult)
  (errors : list string) (w : World)
  : (list TargetResult * list string) * World :=
  match decisions with
  | [] => ((results, errors), w)
  | decision :: rest =>
      match buildSingleTarget self decision options w with
      | (Ok result, w1) =>
          build_targets self rest options (results ++ [result])
            (if res_success (tr_result result) then errors
             else errors ++ res_errors (tr_result result))
            w1
      | (Throw errorMessage, w1) =>
          build_targets self rest options results
            (errors ++ ["Target " +:+ target_name (dec_target decision)
                        +:+ ": " +:+ errorMessage])
            w1
      end
  end.

(** hybrid-builder.ts, [HybridBuilder.build].  The outer [catch] can only
    be entered from [analyzeBuildDecisions], when both arrays are still
    empty.  Calls to [log] (among them [logBuildStrategySummary]) have no
    effect on the result and are left out, here and in the other classes. *)
Definition hybrid_build (self : HybridBuilder) (options : HybridBuildOptions)
  : M HybridBuildResult :=
  let* startTime := date_now env in
  try_catch
    (let* decisions := analyzeBuildDecisions self options in
     let* built :=
       (fun w => let '(acc, w1) :=
                   build_targets self decisions options [] [] w in
                 (Ok acc, w1)) in
     let* now := date_now env in
     let results := fst built in
     let successCount :=
       length (List.filter (fun r => res_success (tr_result r)) results) in
     ret {| agg_success := (successCount =? length results)%nat;
            agg_results := results;
            agg_totalTime := now - startTime;
            agg_warnings := [];
            agg_errors := snd built |})
    (fun errorMessage =>
       let* now := date_now env in
       ret {| agg_success := false; agg_results := [];
              agg_totalTime := now - startTime;
              agg_warnings := []; agg_errors := [errorMessage] |}).

End Hybrid.

(** The targets are decided one after the other, each by
    [decideBuildStrategy] in the world the previous one left. *)
Inductive decided (env : Env) (self : HybridBuilder)
  (options : HybridBuildOptions)
  : list Target -> World -> list BuildDecision -> World -> Prop :=
| decided_nil (w : World) : decided env self options [] w [] w
| decided_cons (target : Target) (targets : list Target) (w w1 w' : World)
    (decision : BuildDecision) (decisions : list BuildDecision) :
    decideBuildStrategy env self target options w = (Ok decision, w1) ->
    decided env self options targets w1 decisions w' ->
    decided env self options (target :: targets) w (decision :: decisions) w'.

(** The decisions are carried out one after the other, each by
    [buildSingleTarget] in the world the previous one left, and each
    returns a result. *)
Inductive built (env : Env) (self : HybridBuilder)
  (options : HybridBuildOptions)
  : list BuildDecision -> World -> list TargetResult -> World -> Prop :=
| built_nil (w : World) : built env self options [] w [] w
| built_cons (decision : BuildDecision) (decisions : list BuildDecision)
    (w w1 w' : World) (result : TargetResult) (results : list TargetResult) :
    buildSingleTarget env self decision options w = (Ok result, w1) ->
    built env self options decisions w1 results w' ->
    built env self options (decision :: decisions) w (result :: results) w'.

(** ** pkg-fetch-extended.ts *)

Definition EXTENDED_NODE_VERSIONS : list (string * string) :=
  [("node20", "20.11.1"); ("node21", "21.7.3"); ("node22", "22.0.0")].

Definition SUPPORTED_PLATFORMS : list string :=
  ["linux"; "macos"; "win"; "alpine"; "linuxstatic"].

Definition SUPPORTED_ARCHITECTURES : list string := ["x64"; "arm64"].

(** The literal of [fallbackToClosestVersion]. *)
Definition fallbackMap : list (string * string) :=
  [("node20", "node18"); ("node21", "node18"); ("node22", "node18")].

(** The versions pkg-fetch itself serves ([getSupportedVersions]). *)
Definition originalVersions : list string :=
  ["node8"; "node10"; "node12"; "node14"; "node16"; "node18"].

(** The own property of an object literal under [key], if any: what
    [table[key]] is for a key known to be one of the literal's. *)
Fixpoint lookup_key (table : list (string * string)) (key : string)
  : option string :=
  match table with
  | [] => None
  | (k, v) :: rest => if String.eqb k key then Some v else lookup_key rest key
  end.

(** The property names every object literal inherits from
    [Object.prototype]: [table[key]] is defined on them although the
    literal has no such key. *)
Definition OBJECT_PROTOTYPE_KEYS : list string :=
  ["constructor"; "__proto__"; "hasOwnProperty"; "isPrototypeOf";
   "propertyIsEnumerable"; "toLocaleString"; "toString"; "valueOf";
   "__defineGetter__"; "__defineSetter__"; "__lookupGetter__";
   "__lookupSetter__"].

(** [table[key]] for an arbitrary string [key]. *)
Inductive Property : Type :=
| Own (value : string)
| Inherited
| Absent.

Definition get_property (table : list (string * string)) (key : string)
  : Property :=
  match lookup_key table key with
  | Some v => Own v
  | None =>
      if array_includes OBJECT_PROTOTYPE_KEYS key then Inherited else Absent
  end.

(** How many entries of a table have the key. *)
Definition entries_for (table : list (string * string)) (key : string) : nat :=
  length (List.filter (fun kv => String.eqb (fst kv) key) table).

Record ExtendedFetchOptions : Type := {
  fo_nodeRange : string;
  fo_platform : string;
  fo_arch : string;
  fo_forceBuild : option bool
}.

Record ExtendedBinaryInfo : Type := {
  bi_nodeRange : string;
  bi_platform : string;
  bi_arch : string;
  bi_version : string;
  bi_url : string;
  bi_localPath : string;
  bi_isExtended : bool
}.

Record ExtendedPkgFetch : Type := { cacheDir : string }.

Definition isExtendedVersion (nodeRange : string) : bool :=
  array_includes (map fst EXTENDED_NODE_VERSIONS) nodeRange.

Definition requiresExtendedSupport (nodeRange : string) : bool :=
  array_includes (map fst EXTENDED_NODE_VERSIONS) nodeRange.

Definition getSupportedVersions : list string :=
  (originalVersions ++ map fst EXTENDED_NODE_VERSIONS)%list.

Definition no_fallback (nodeRange : string) : string :=
  "No fallback version available for " +:+ nodeRange.

Section Fetch.

Variable env : Env.

Definition generateDownloadUrl (platform arch version : string) : string :=
  let platformMap :=
    [("linux", "linux"); ("macos", "darwin"); ("win", "win32");
     ("alpine", "linux"); ("linuxstatic", "linux")] in
  let archMap := [("x64", "x64"); ("arm64", "arm64")] in
  let nodePlatform := default "undefined" (lookup_key platformMap platform) in
  let nodeArch := default "undefined" (lookup_key archMap arch) in
  let extension := if String.eqb platform "win" then ".zip" else ".tar.xz" in
  "https://nodejs.org/dist/v" +:+ version +:+ "/node-v" +:+ version +:+ "-"
  +:+ nodePlatform +:+ "-" +:+ nodeArch +:+ extension.

Definition generateLocalPath (self : ExtendedPkgFetch)
  (platform arch version : string) : string :=
  let extension := if String.eqb platform "win" then ".exe" else "" in
  let filename :=
    "fetched-v" +:+ version +:+ "-" +:+ platform +:+ "-" +:+ arch
    +:+ extension in
  path_join env (path_join env (cacheDir self) "v3.5") filename.

Definition getBinaryInfo (self : ExtendedPkgFetch)
  (options : ExtendedFetchOptions) : M ExtendedBinaryInfo :=
  if negb (isExtendedVersion (fo_nodeRange options)) then
    throw ("Node.js version " +:+ fo_nodeRange options
           +:+ " is not supported by extended pkg-fetch")
  else if negb (array_includes SUPPORTED_PLATFORMS (fo_platform options)) then
    throw ("Platform " +:+ fo_platform options +:+ " is not supported")
  else if negb (array_includes SUPPORTED_ARCHITECTURES (fo_arch options)) then
    throw ("Architecture " +:+ fo_arch options +:+ " is not supported")
  else
    let version :=
      default "undefined"
        (lookup_key EXTENDED_NODE_VERSIONS (fo_nodeRange options)) in
    ret {| bi_nodeRange := fo_nodeRange options;
           bi_platform := fo_platform options;
           bi_arch := fo_arch options;
           bi_version := version;
           bi_url :=
             generateDownloadUrl (fo_platform options) (fo_arch options)
               version;
           bi_localPath :=
             generateLocalPath self (fo_platform options) (fo_arch options)
               version;
           bi_isExtended := true |}.

Definition binaryExists (self : ExtendedPkgFetch) (localPath : string)
  : M bool :=
  try_catch (let* _ := fs_call env (Access localPath) in ret true)
            (fun _ => ret false).

(** A placeholder in the source: it always throws. *)
Definition downloadOfficialBinary (self : ExtendedPkgFetch)
  (binaryInfo : ExtendedBinaryInfo) : M unit :=
  throw "Official binary download not yet implemented".

(** pkg-fetch's [need]. *)
Definition need (nodeRange platform arch : string) : M string :=
  fun w =>
    let '(r, disk) := pkg_fetch_need env nodeRange platform arch w in
    (r, {| w_exists := disk;
           w_trace := EvNeed nodeRange platform arch :: w_trace w |}).

(** [need] reached with the inherited value under [key] as its
    [nodeRange]. *)
Definition need_inherited (key platform arch : string) : M string :=
  fun w =>
    let '(r, disk) := pkg_fetch_need_inherited env key platform arch w in
    (r, {| w_exists := disk;
           w_trace := EvNeedInherited key platform arch :: w_trace w |}).

(** [if (!fallbackVersion) throw ...] tests [fallbackMap[nodeRange]], which
    is truthy also for a name the literal only inherits. *)
Definition fallbackToClosestVersion (self : ExtendedPkgFetch)
  (options : ExtendedFetchOptions) : M string :=
  match get_property fallbackMap (fo_nodeRange options) with
  | Absent => throw (no_fallback (fo_nodeRange options))
  | Own fallbackVersion =>
      if String.eqb fallbackVersion ""
      then throw (no_fallback (fo_nodeRange options))
      else need fallbackVersion (fo_platform options) (fo_arch options)
  | Inherited =>
      need_inherited (fo_nodeRange options) (fo_platform options)
        (fo_arch options)
  end.

Definition fetch (self : ExtendedPkgFetch) (options : ExtendedFetchOptions)
  : M string :=
  let* binaryInfo := getBinaryInfo self options in
  let* cached := binaryExists self (bi_localPath binaryInfo) in
  if cached then ret (bi_localPath binaryInfo)
  else
    try_catch
      (let* _ := downloadOfficialBinary self binaryInfo in
       ret (bi_localPath binaryInfo))
      (fun _ => fallbackToClosestVersion self options).

End Fetch.

(** ** Further functions of node-support.ts *)

(** What [enhancedAbiToNodeRange] returns: a string, or (for a key such as
    ['constructor']) the value inherited under that key, which is not a
    string. *)
Inductive AbiRange : Type :=
| RangeName (name : string)
| InheritedValue (key : string).

(** node-support.ts, [enhancedAbiToNodeRange]; [abiToNodeRange] is
    pkg-fetch's [system.abiToNodeRange], which may be missing. *)
Definition enhancedAbiToNodeRange (abiToNodeRange : option (string -> string))
  (abi : string) : AbiRange :=
  match get_property EXTENDED_ABI_MAPPING abi with
  | Own v =>
      if String.eqb v "" then
        RangeName (match abiToNodeRange with Some f => f abi | None => abi end)
      else RangeName v
  | Inherited => InheritedValue abi
  | Absent =>
      RangeName (match abiToNodeRange with Some f => f abi | None => abi end)
  end.

Definition is_digit (c : ascii) : bool :=
  match digit_of c with
  | Some _ => true
  | None => false
  end.

(** The longest prefix of decimal digits. *)
Fixpoint digit_run (s : string) : string :=
  match s with
  | String c t => if is_digit c then String c (digit_run t) else ""
  | EmptyString => ""
  end.

(** [processVersion.match(/^v(\d+)/)?.[1] || '0']. *)
Definition version_major (processVersion : string) : string :=
  match processVersion with
  | String "v"%char t =>
      let digits := digit_run t in
      if String.eqb digits "" then "0" else digits
  | _ => "0"
  end.

(** node-support.ts, [getCurrentNodeInfo], for [process.version]. *)
Definition getCurrentNodeInfo (processVersion : string) : NodeVersionInfo :=
  getNodeVersionInfo ("node" +:+ version_major processVersion).

(** [a >= b] on two numbers; false when either is NaN. *)
Definition num_geq (a b : number) : bool :=
  match a, b with
  | Num x, Num y => y <=? x
  | _, _ => false
  end.

(** node-support.ts, [canBuildForTarget], for [process.version]. *)
Definition canBuildForTarget (processVersion targetNodeRange : string)
  : bool :=
  let current := getCurrentNodeInfo processVersion in
  let target := getNodeVersionInfo targetNodeRange in
  let currentVersion := parseInt (replace "node" "" (info_version current)) in
  let targetVersion := parseInt (replace "node" "" (info_version target)) in
  num_geq currentVersion targetVersion.

(** The decimal numeral of a natural number, as JavaScript prints it. *)
Definition decimal (n : nat) : string :=
  NilEmpty.string_of_uint (Nat.to_uint n).

(** ** Further functions of pkg-fetch-extended.ts *)

Definition EXTENDED_ABI_VERSIONS : list (string * string) :=
  [("115", "node20"); ("120", "node21"); ("127", "node22")].

(** pkg-fetch-extended.ts, [ExtendedPkgFetch.enhancedAbiToNodeRange]. *)
Definition extended_enhancedAbiToNodeRange
  (abiToNodeRange : option (string -> string)) (abi : string) : AbiRange :=
  match get_property EXTENDED_ABI_VERSIONS abi with
  | Own v =>
      if String.eqb v "" then enhancedAbiToNodeRange abiToNodeRange abi
      else RangeName v
  | Inherited => InheritedValue abi
  | Absent => enhancedAbiToNodeRange abiToNodeRange abi
  end.

(** pkg-fetch-extended.ts, [ExtendedPkgFetch.enhancedIsValidNodeRange]. *)
Definition extended_enhancedIsValidNodeRange (nodeRange : string) : bool :=
  if array_includes (map fst EXTENDED_NODE_VERSIONS) nodeRange then true
  else enhancedIsValidNodeRange nodeRange.

(** ** What a run may do *)

(** [m] only adds events to the log, and each of them satisfies [ok]. *)
Definition only {A} (ok : Event -> Prop) (m : M A) : Prop :=
  forall w r w', m w = (r, w') ->
    exists evs, w_trace w' = (evs ++ w_trace w)%list /\ Forall ok evs.

(** The file name [copyNodeBinary] gives the copied runtime. *)
Definition binaryPath_of (env : Env) (self : SEABuilder)
  (options : SEABuildOptions) : string :=
  path_join env (tempDir self)
    (path_basename env (sea_output options)
       (path_extname env (sea_output options))
     +:+ (if String.eqb (sea_platform options) "win" then ".exe" else "")).

(** The arguments [injectBlob] passes to [npx]. *)
Definition postject_args (binaryPath blobPath platform : string)
  : list string :=
  (["postject"; binaryPath; "NODE_SEA_BLOB"; blobPath; "--sentinel-fuse";
    "NODE_SEA_FUSE_fce680ab2cc467b6e072b8b5df1996b2"]
   ++ (if String.eqb platform "macos"
       then ["--macho-segment-name"; "NODE_SEA"] else []))%list.

(** The processes [removeSignature] starts, most recent first. *)
Definition unsign_events (binaryPath platform : string) : list Event :=
  if String.eqb platform "macos"
  then [EvSpawn "codesign" ["--remove-signature"; binaryPath]]
  else if String.eqb platform "win"
       then [EvSpawn "signtool" ["remove"; "/s"; binaryPath]]
       else [].

(** The processes [signBinary] starts when [build] calls it. *)
Definition sign_events (signBinary : option bool)
  (binaryPath platform : string) : list Event :=
  if truthy signBinary then
    if String.eqb platform "macos"
    then [EvSpawn "codesign" ["--sign"; "-"; binaryPath]]
    else if String.eqb platform "win"
         then [EvSpawn "signtool" ["sign"; "/fd"; "SHA256"; binaryPath]]
         else []
  else [].

(** Everything an invocation of [SEABuilder.build] may do. *)
Definition build_may (env : Env) (self : SEABuilder)
  (options : SEABuildOptions) (e : Event) : Prop :=
  let bin := binaryPath_of env self options in
  let configPath := path_join env (tempDir self) "sea-config.json" in
  let blobPath := path_join env (tempDir self) "sea-prep.blob" in
  match e with
  | EvSpawn command args =>
      (command = "node"
       /\ (args = ["--help"]
           \/ args = ["--experimental-sea-config"; configPath]))
      \/ (command = "npx"
          /\ args = postject_args bin blobPath (sea_platform options))
      \/ (command = "codesign" /\ sea_platform options = "macos"
          /\ (args = ["--remove-signature"; bin]
              \/ (sea_signBinary options = Some true
                  /\ args = ["--sign"; "-"; bin])))
      \/ (command = "signtool" /\ sea_platform options = "win"
          /\ (args = ["remove"; "/s"; bin]
              \/ (sea_signBinary options = Some true
                  /\ args = ["sign"; "/fd"; "SHA256"; bin])))
  | EvFs (Mkdir p) => p = tempDir self
  | EvFs (Rm p) => p = tempDir self
  | EvFs (WriteFile p _) => p = configPath
  | EvFs (CopyFile src dst) => src = process_execPath env /\ dst = bin
  | EvFs (Rename src dst) => src = bin /\ dst = sea_output options
  | EvFs (Stat p) => p = sea_output options
  | EvFs (Access _) => False
  | EvNeed _ _ _ => False
  | EvNeedInherited _ _ _ => False
  end.

(** Everything a successful run of [SEABuilder.build] does, most recent
    first; [config] is the record written in the config step. *)
Definition success_events (env : Env) (self : SEABuilder)
  (options : SEABuildOptions) (config : SEAConfig) : list Event :=
  let bin := binaryPath_of env self options in
  let out := sea_output options in
  let configPath := path_join env (tempDir self) "sea-config.json" in
  let blobPath := path_join env (tempDir self) "sea-prep.blob" in
  (EvFs (Rm (tempDir self)) :: EvFs (Stat out) :: EvFs (Rename bin out)
   :: sign_events (sea_signBinary options) bin (sea_platform options)
   ++ EvSpawn "npx" (postject_args bin blobPath (sea_platform options))
   :: unsign_events bin (sea_platform options)
   ++ [EvFs (CopyFile (process_execPath env) bin);
       EvSpawn "node" ["--experimental-sea-config"; configPath];
       EvFs (WriteFile configPath config);
       EvFs (Mkdir (tempDir self));
       EvSpawn "node" ["--help"]])%list.

(** The result [buildSingleTarget] returns for a traditional decision. *)
Definition traditional_placeholder (targetOutput : string) : SEABuildResult :=
  {| res_success := false; res_outputPath := targetOutput;
     res_size := 0; res_buildTime := 0; res_warnings := [];
     res_errors :=
       ["Traditional PKG build not yet integrated in hybrid builder"] |}.

(** The errors [HybridBuilder.build] takes from one target's result. *)
Definition errors_taken (t : TargetResult) : list string :=
  if res_success (tr_result t) then [] else res_errors (tr_result t).

(** How an element of [results] relates to its own fields. *)
Definition entry_consistent (env : Env) (self : HybridBuilder)
  (options : HybridBuildOptions) (t : TargetResult) : Prop :=
  match tr_buildMode t with
  | Sea => tr_outputPath t = res_outputPath (tr_result t)
  | Traditional =>
      tr_outputPath t
      = generateTargetOutput env self (tr_target t) (hyb_output options)
      /\ tr_result t = traditional_placeholder (tr_outputPath t)
  end.

(** ** Properties of the log *)

(** Every directory created in [evs] is [d]. *)
Definition tmp_only (d : string) (evs : list Event) : Prop :=
  Forall (fun p => p = d) (dirs_made evs).

(** [m] only adds events to the log, and creates no directory but [d]. *)
Definition emits {A} (d : string) (m : M A) : Prop :=
  forall w r w', m w = (r, w') ->
    exists evs, w_trace w' = (evs ++ w_trace w)%list /\ tmp_only d evs.

(** ** Concrete environments *)

(** A POSIX-like machine with cwd [/proj]: [node --help] prints [help], the
    blob generator and postject exit with [blobExit] and [injectExit], and
    [fs.rm] throws [rmFault] if that is [Some]. *)
Definition demo_env (help : string) (blobExit injectExit : option Z)
  (rmFault : option string) : Env :=
  {| path_join := fun a b => a +:+ "/" +:+ b;
     path_basename := fun _ _ => "app";
     path_extname := fun _ => "";
     path_dirname := fun _ => "/proj/dist";
     path_relative :=
       fun from to =>
         if String.prefix (from +:+ "/") to
         then drop_chars (S (String.length from)) to else to;
     process_cwd := "/proj";
     process_execPath := "/usr/bin/node";
     Date_now := fun w => Z.of_nat (length (w_trace w));
     spawn :=
       fun command args w =>
         (if String.eqb command "node" then
            match args with
            | ["--help"] => Closed (Some 0) help ""
            | _ => Closed blobExit "" "blob generation failed"
            end
          else if String.eqb command "npx" then
            Closed injectExit "" "postject failed"
          else Closed (Some 0) "" "",
          w_exists w);
     fs_fault :=
       fun op _ => match op with Rm _ => rmFault | _ => None end;
     (* a removal that fails has emptied the directory and kept it *)
     fs_left :=
       fun op w q =>
         match op with
         | Rm p => String.eqb q p
         | _ => w_exists w q
         end;
     fs_within :=
       fun p q =>
         let absolute := if String.prefix "/" q then q else "/proj/" +:+ q in
         String.eqb absolute p || String.prefix (p +:+ "/") absolute;
     stat_size := fun _ _ => 1024;
     pkg_fetch_need :=
       fun nodeRange _ _ w => (Ok ("/cache/" +:+ nodeRange), w_exists w);
     pkg_fetch_need_inherited :=
       fun _ _ _ w =>
         (Throw "need: nodeRange is not a string", w_exists w) |}.

Definition sea_help : string :=
  "  --experimental-sea-config=... generate a blob for a single executable".

(** Every tool works. *)
Definition good_env : Env := demo_env sea_help (Some 0) (Some 0) None.

(** The blob generator fails and the temporary directory cannot be removed. *)
Definition busy_env : Env :=
  demo_env sea_help (Some 1) (Some 0) (Some "EBUSY: resource busy or locked").

Definition empty_world : World :=
  {| w_exists := fun _ => false; w_trace := [] |}.


(** A disk holding two assets, one of them a file named [__proto__] in the
    project directory. *)
Definition proto_world : World :=
  {| w_exists :=
       fun p =>
         String.eqb p "/proj/assets/logo.png" || String.eqb p "/proj/__proto__";
     w_trace := [] |}.

(** A machine like [good_env] on which [signtool] is not installed. *)
Definition without_signtool : Host :=
  fun command _ _ => negb (String.eqb command "signtool").

Definition target_of (version : string) : Target :=
  {| nodeRange := version; platform := "linux"; arch := "x64" |}.

Definition hybrid_options (targets : list Target)
  (force : option ForceBuildMode) (crossCompile : option bool)
  : HybridBuildOptions :=
  {| hyb_entrypoint := "index.js"; hyb_output := "/proj/dist/app";
     hyb_targets := targets; hyb_assets := None;
     hyb_useSnapshot := None; hyb_useCodeCache := None;
     hyb_forceBuildMode := force; hyb_crossCompile := crossCompile;
     hyb_hasComplexRequires := None; hyb_signBinary := None |}.

Definition sea_options (version : string) (assets : option (list string))
  (useSnapshot useCodeCache : option bool) : SEABuildOptions :=
  {| sea_entrypoint := "index.js"; sea_output := "/proj/dist/app";
     sea_nodeVersion := version; sea_platform := "linux"; sea_arch := "x64";
     sea_assets := assets; sea_useSnapshot := useSnapshot;
     sea_useCodeCache := useCodeCache; sea_signBinary := None |}.

(** ** Capability model and validation *)

Example info_node21 :
  getNodeVersionInfo "node21"
  = {| info_version := "node21"; info_abi := Num 120;
       info_supportsSEA := true; info_stableSEA := true;
       info_isSupported := true |}.
Proof. reflexivity. Qed.

Example info_latest :
  getNodeVersionInfo "latest"
  = {| info_version := "nodelatest"; info_abi := Num 0;
       info_supportsSEA := false; info_stableSEA := false;
       info_isSupported := false |}.
Proof. reflexivity. Qed.

Lemma array_includes_In (l : list string) (x : string) :
  array_includes l x = true <-> In x l.
Proof.
  unfold array_includes. rewrite existsb_exists. split.
  - intros (y & Hy & E). apply String.eqb_eq in E. now subst.
  - intros H. exists x. split; [assumption | apply String.eqb_refl].
Qed.

Lemma stable_versions_support_SEA (v : string) :
  array_includes SEA_STABLE_VERSIONS v = true ->
  array_includes SEA_SUPPORTED_VERSIONS v = true.
Proof.
  rewrite !array_includes_In. unfold SEA_STABLE_VERSIONS, SEA_SUPPORTED_VERSIONS.
  simpl. tauto.
Qed.

Lemma hasStableSEA_hasNativeSEA (v : string) :
  hasStableSEA v = true -> hasNativeSEA (getSEACapabilities v) = true.
Proof.
  unfold hasStableSEA, getSEACapabilities. intros H.
  apply stable_versions_support_SEA in H. cbn [info_stableSEA info_supportsSEA
    getNodeVersionInfo] in *. rewrite H. reflexivity.
Qed.

Lemma getBuildStrategy_crossCompile (v : string) (o : StrategyOptions) :
  so_crossCompile o = Some true -> getBuildStrategy v o = StrategyTraditional.
Proof.
  intros H. unfold getBuildStrategy. rewrite H. cbn [default].
  now destruct (negb _).
Qed.

(** ** [canUseSEA] *)

Lemma canUseSEA_returns (env : Env) (self : SEABuilder) (v : string)
  (w : World) :
  exists b w', canUseSEA env self v w = (Ok b, w')
               /\ (b = true -> hasStableSEA v = true).
Proof.
  unfold canUseSEA, try_catch, bind, runCommand, ret.
  destruct (hasStableSEA v); cbn [negb].
  - destruct (spawn env "node" ["--help"] w) as [[code out err | msg] disk];
      eauto.
  - eexists _, _. split; [reflexivity | discriminate].
Qed.

Lemma canUseSEA_unstable (env : Env) (self : SEABuilder) (v : string)
  (w : World) :
  hasStableSEA v = false -> canUseSEA env self v w = (Ok false, w).
Proof.
  intros H. unfold canUseSEA, try_catch, ret. now rewrite H.
Qed.

(** ** The decision engine *)

Lemma decideBuildStrategy_returns (env : Env) (self : HybridBuilder)
  (target : Target) (options : HybridBuildOptions) (w : World) :
  exists d w',
    decideBuildStrategy env self target options w = (Ok d, w')
    /\ dec_target d = target
    /\ dec_shouldUseSEA d = mode_eqb (dec_buildMode d) Sea && dec_canUseSEA d
    /\ (forced_mode (hyb_forceBuildMode options) = None ->
        dec_shouldUseSEA d = mode_eqb (dec_buildMode d) Sea)
    /\ (forced_mode (hyb_forceBuildMode options) = None ->
        hyb_crossCompile options = Some true ->
        dec_buildMode d = Traditional).
Proof.
  unfold decideBuildStrategy.
  destruct (validateTarget target) as [| reason].
  2: { eexists _, _. split; [reflexivity |]. cbn. auto. }
  destruct (canUseSEA_returns env (seaBuilder self) (nodeRange target) w)
    as (b & w' & E & Hb).
  destruct (forced_mode (hyb_forceBuildMode options)) as [forced |];
    unfold bind; rewrite E.
  - eexists _, _. split; [reflexivity |]. cbn.
    repeat split; try discriminate. 
  - destruct b; cbn [negb].
    + match goal with
      | |- context [getBuildStrategy ?v ?o] =>
          pose proof (getBuildStrategy_crossCompile v o) as Hx;
          destruct (getBuildStrategy v o)
      end;
      try destruct (info_stableSEA (getNodeVersionInfo (nodeRange target)));
      (eexists _, _; split; [reflexivity |]); cbn;
      repeat split; auto; intros _ Hc; now specialize (Hx Hc).
    + eexists _, _. split; [reflexivity |]. cbn. auto.
Qed.

(** C10: for the sentinel tag ['latest'], [enhancedIsValidNodeRange] answers
    true, yet [getNodeVersionInfo('latest')] has [isSupported = false]
    because the numeric major of its version ['nodelatest'] parses to NaN;
    so [validateTarget] rejects every target whose [nodeRange] is ['latest'],
    whatever the platform and the architecture. *)
Theorem latest_valid_range_but_rejected :
  enhancedIsValidNodeRange "latest" = true
  /\ parseInt (replace "node" "" (info_version (getNodeVersionInfo "latest")))
     = NaN
  /\ info_isSupported (getNodeVersionInfo "latest") = false
  /\ forall p a : string,
       validateTarget {| nodeRange := "latest"; platform := p; arch := a |}
       = Invalid
           "Node.js version latest is not supported. Supported versions: 8-24".
Proof.
  repeat split.
Qed.

(** C6: when [validateTarget] rejects the target, [decideBuildStrategy]
    returns the traditional (legacy) mode with [canUseSEA = false], without
    consulting anything else, and its reason is the validation failure text
    (under the heading "Target validation failed: "); this holds for every
    option record, so also when the SEA (native) mode is forced. *)
Theorem invalid_target_decides_traditional (env : Env) (self : HybridBuilder)
  (target : Target) (options : HybridBuildOptions) (w : World)
  (reason : string) :
  validateTarget target = Invalid reason ->
  decideBuildStrategy env self target options w
  = (Ok {| dec_target := target; dec_buildMode := Traditional;
           dec_reason := "Target validation failed: " +:+ reason;
           dec_canUseSEA := false; dec_shouldUseSEA := false |}, w).
Proof.
  intros H. unfold decideBuildStrategy. now rewrite H.
Qed.

Lemma invalid_target_decides_traditional_witness :
  validateTarget (target_of "node6")
  = Invalid "Node.js version node6 is not supported. Supported versions: 8-24"
  /\ fst (decideBuildStrategy good_env (new_HybridBuilder good_env)
            (target_of "node6") (hybrid_options [] (Some ForceSea) None)
            empty_world)
     = Ok {| dec_target := target_of "node6"; dec_buildMode := Traditional;
             dec_reason :=
               "Target validation failed: Node.js version node6 is not supported. Supported versions: 8-24";
             dec_canUseSEA := false; dec_shouldUseSEA := false |}.
Proof.
  split; [reflexivity |].
  rewrite (invalid_target_decides_traditional good_env
             (new_HybridBuilder good_env) (target_of "node6")
             (hybrid_options [] (Some ForceSea) None) empty_world
             "Node.js version node6 is not supported. Supported versions: 8-24");
    reflexivity.
Defined.

(** C5, as stated, fails: for the valid target node20-linux-x64 with the SEA
    mode forced, the decision has mode [Sea] but [shouldUseSEA = false]
    (node20 has no stable SEA, so [canUseSEA] is false). *)
Lemma forced_sea_on_node20_not_should_use :
  let d := {| dec_target := target_of "node20"; dec_buildMode := Sea;
              dec_reason := "User forced sea mode";
              dec_canUseSEA := false; dec_shouldUseSEA := false |} in
  decideBuildStrategy good_env (new_HybridBuilder good_env)
    (target_of "node20") (hybrid_options [] (Some ForceSea) None) empty_world
  = (Ok d, empty_world)
  /\ ~ (dec_shouldUseSEA d = true <-> dec_buildMode d = Sea).
Proof.
  split; [reflexivity |]. cbn. intros [_ H]. specialize (H eq_refl).
  discriminate.
Qed.

(** C5, amended: [decideBuildStrategy] always returns a decision, and in it
    [shouldUseSEA] is true iff the final mode is [Sea] and [canUseSEA] is
    true; when no mode is forced (unset or ['auto']) [shouldUseSEA] is true
    iff the final mode is [Sea]. *)
Theorem shouldUseSEA_iff_sea_and_capable (env : Env) (self : HybridBuilder)
  (target : Target) (options : HybridBuildOptions) (w : World) :
  exists d w',
    decideBuildStrategy env self target options w = (Ok d, w')
    /\ (dec_shouldUseSEA d = true
        <-> dec_buildMode d = Sea /\ dec_canUseSEA d = true)
    /\ (forced_mode (hyb_forceBuildMode options) = None ->
        (dec_shouldUseSEA d = true <-> dec_buildMode d = Sea)).
Proof.
  destruct (decideBuildStrategy_returns env self target options w)
    as (d & w' & E & _ & Hs & Hauto & _).
  exists d, w'. split; [exact E |]. split.
  - rewrite Hs, andb_true_iff. now destruct (dec_buildMode d).
  - intros Hf. rewrite (Hauto Hf). now destruct (dec_buildMode d).
Qed.

Lemma shouldUseSEA_iff_sea_and_capable_witness :
  exists d w',
    decideBuildStrategy good_env (new_HybridBuilder good_env)
      (target_of "node21") (hybrid_options [] None None) empty_world
    = (Ok d, w')
    /\ (dec_shouldUseSEA d = true <-> dec_buildMode d = Sea).
Proof.
  destruct (shouldUseSEA_iff_sea_and_capable good_env
              (new_HybridBuilder good_env) (target_of "node21")
              (hybrid_options [] None None) empty_world)
    as (d & w' & E & _ & H).
  exists d, w'. split; [exact E | apply H; reflexivity].
Defined.

(** C7, as stated, fails: for node21-linux-x64 with [crossCompile = true]
    and the SEA mode forced, the decision has mode [Sea]. *)
Lemma forced_sea_overrides_crossCompile :
  exists d w',
    decideBuildStrategy good_env (new_HybridBuilder good_env)
      (target_of "node21") (hybrid_options [] (Some ForceSea) (Some true))
      empty_world
    = (Ok d, w')
    /\ hyb_crossCompile (hybrid_options [] (Some ForceSea) (Some true))
       = Some true
    /\ dec_buildMode d = Sea.
Proof.
  eexists _, _. split; [reflexivity |]. split; reflexivity.
Qed.

(** C7, amended: for every target and every option record with
    [crossCompile = true], the decision returned by [decideBuildStrategy]
    has the mode [Sea] if and only if the SEA mode is forced and the target
    passes [validateTarget].  So with no forced mode (unset or ['auto']),
    with the traditional mode forced, and on every invalid target the mode
    is never [Sea], whatever the stability of the target's version; and a
    forced SEA mode is honoured on every valid target. *)
Theorem crossCompile_sea_iff_forced_and_valid (env : Env)
  (self : HybridBuilder) (target : Target) (options : HybridBuildOptions)
  (w : World) :
  hyb_crossCompile options = Some true ->
  exists d w',
    decideBuildStrategy env self target options w = (Ok d, w')
    /\ (dec_buildMode d = Sea
        <-> forced_mode (hyb_forceBuildMode options) = Some Sea
            /\ validateTarget target = Valid).
Proof.
  intros Hc. unfold decideBuildStrategy.
  destruct (validateTarget target) as [| reason].
  2: { eexists _, _. split; [reflexivity |]. cbn.
       split; [discriminate |]. intros [_ H]. discriminate. }
  destruct (canUseSEA_returns env (seaBuilder self) (nodeRange target) w)
    as (b & w' & E & _).
  destruct (forced_mode (hyb_forceBuildMode options)) as [forced |];
    unfold bind; rewrite E.
  - eexists _, _. split; [reflexivity |]. cbn. split.
    + now intros ->.
    + intros [H _]. now injection H.
  - destruct b; cbn [negb].
    + rewrite getBuildStrategy_crossCompile by exact Hc.
      eexists _, _. split; [reflexivity |]. cbn.
      split; [discriminate |]. intros [H _]. discriminate.
    + eexists _, _. split; [reflexivity |]. cbn.
      split; [discriminate |]. intros [H _]. discriminate.
Qed.

Lemma crossCompile_sea_iff_forced_and_valid_witness :
  exists d w',
    decideBuildStrategy good_env (new_HybridBuilder good_env)
      (target_of "node21")
      (hybrid_options [] (Some ForceTraditional) (Some true)) empty_world
    = (Ok d, w')
    /\ dec_buildMode d <> Sea.
Proof.
  destruct (crossCompile_sea_iff_forced_and_valid good_env
              (new_HybridBuilder good_env) (target_of "node21")
              (hybrid_options [] (Some ForceTraditional) (Some true))
              empty_world eq_refl)
    as (d & w' & E & Hiff).
  exists d, w'. split; [exact E |].
  intros Hsea. apply Hiff in Hsea. destruct Hsea as [Hforced _].
  discriminate Hforced.
Defined.

(** ** The extended version resolver *)

Lemma isExtendedVersion_cases (v : string) :
  isExtendedVersion v = true -> v = "node20" \/ v = "node21" \/ v = "node22".
Proof.
  unfold isExtendedVersion. rewrite array_includes_In. cbn.
  intuition auto.
Qed.

Lemma cons_neq_self {A} (x : A) (l : list A) : x :: l <> l.
Proof.
  intros H. apply (f_equal (@length A)) in H. cbn in H. lia.
Qed.

(** C9, as stated, fails: node23 is flagged [isSupported = true] and is not
    one of the versions pkg-fetch serves itself, yet [fallbackMap] has no
    entry for it. *)
Lemma node23_supported_without_fallback :
  info_isSupported (getNodeVersionInfo "node23") = true
  /\ array_includes originalVersions "node23" = false
  /\ entries_for fallbackMap "node23" = 0%nat
  /\ lookup_key fallbackMap "node23" = None.
Proof.
  repeat split.
Qed.

Lemma fallbackMap_target (key fb : string) :
  lookup_key fallbackMap key = Some fb -> fb = "node18".
Proof.
  unfold fallbackMap. cbn [lookup_key].
  repeat match goal with
         | |- context [String.eqb ?a ?b] => destruct (String.eqb a b)
         end; congruence.
Qed.

Lemma entries_for_none (table : list (string * string)) (key : string) :
  lookup_key table key = None -> entries_for table key = 0%nat.
Proof.
  unfold entries_for.
  induction table as [| [k v] rest IH]; cbn; [reflexivity |].
  destruct (String.eqb k key); [discriminate | exact IH].
Qed.

Lemma need_grows_log (env : Env) (nodeRange platform arch : string)
  (w : World) (r : Res string) :
  need env nodeRange platform arch w <> (r, w).
Proof.
  unfold need.
  destruct (pkg_fetch_need env nodeRange platform arch w) as [r' disk].
  intros H. injection H as _ Hw.
  apply (f_equal w_trace) in Hw. cbn in Hw.
  now apply cons_neq_self in Hw.
Qed.

Lemma need_inherited_grows_log (env : Env) (key platform arch : string)
  (w : World) (r : Res string) :
  need_inherited env key platform arch w <> (r, w).
Proof.
  unfold need_inherited.
  destruct (pkg_fetch_need_inherited env key platform arch w) as [r' disk].
  intros H. injection H as _ Hw.
  apply (f_equal w_trace) in Hw. cbn in Hw.
  now apply cons_neq_self in Hw.
Qed.

(** C9, amended: for every extended version (a key of
    [EXTENDED_NODE_VERSIONS]: node20, node21, node22) [fallbackMap] has
    exactly one entry; the entry's target is flagged [isSupported = true]
    and is a version pkg-fetch serves itself.  For every requested version,
    [fallbackToClosestVersion] throws its own "No fallback version
    available" (without having called pkg-fetch) only when [fallbackMap]
    has no entry for it: exactly when the requested name is neither a key
    of [fallbackMap] nor a name every object inherits, under which
    [fallbackMap[nodeRange]] is truthy.  When there is an entry, its target
    is handed to pkg-fetch's [need]. *)
Theorem extended_versions_have_one_fallback (env : Env)
  (self : ExtendedPkgFetch) (options : ExtendedFetchOptions) (w : World)
  (v : string) :
  isExtendedVersion v = true ->
  (entries_for fallbackMap v = 1%nat
   /\ exists fb, lookup_key fallbackMap v = Some fb
                 /\ info_isSupported (getNodeVersionInfo fb) = true
                 /\ array_includes originalVersions fb = true)
  /\ (fallbackToClosestVersion env self options w
      = (Throw (no_fallback (fo_nodeRange options)), w) ->
      lookup_key fallbackMap (fo_nodeRange options) = None
      /\ entries_for fallbackMap (fo_nodeRange options) = 0%nat)
  /\ (fallbackToClosestVersion env self options w
      = (Throw (no_fallback (fo_nodeRange options)), w)
      <-> get_property fallbackMap (fo_nodeRange options) = Absent)
  /\ (forall fb, lookup_key fallbackMap (fo_nodeRange options) = Some fb ->
      fallbackToClosestVersion env self options w
      = need env fb (fo_platform options) (fo_arch options) w).
Proof.
  intros Hv.
  assert (Hiff : fallbackToClosestVersion env self options w
                 = (Throw (no_fallback (fo_nodeRange options)), w)
                 <-> get_property fallbackMap (fo_nodeRange options) = Absent).
  { unfold fallbackToClosestVersion, get_property.
    destruct (lookup_key fallbackMap (fo_nodeRange options)) as [fb |] eqn:L.
    - apply fallbackMap_target in L. subst fb. cbn [String.eqb].
      split; [| discriminate]. intros H. now apply need_grows_log in H.
    - destruct (array_includes OBJECT_PROTOTYPE_KEYS (fo_nodeRange options)).
      + split; [| discriminate].
        intros H. now apply need_inherited_grows_log in H.
      + split; reflexivity. }
  split; [| split; [| split]].
  - apply isExtendedVersion_cases in Hv.
    destruct Hv as [-> | [-> | ->]]; (split; [reflexivity |]);
      exists "node18"; repeat split.
  - intros H. apply Hiff in H. unfold get_property in H.
    destruct (lookup_key fallbackMap (fo_nodeRange options)) as [fb |] eqn:L;
      [discriminate |].
    split; [reflexivity | now apply entries_for_none].
  - exact Hiff.
  - intros fb H. unfold fallbackToClosestVersion, get_property. rewrite H.
    apply fallbackMap_target in H. now subst fb.
Qed.

Lemma extended_versions_have_one_fallback_witness :
  entries_for fallbackMap "node20" = 1%nat
  /\ fst (fallbackToClosestVersion good_env {| cacheDir := "/cache" |}
            {| fo_nodeRange := "node20"; fo_platform := "linux";
               fo_arch := "x64"; fo_forceBuild := None |} empty_world)
     = Ok "/cache/node18".
Proof.
  destruct (extended_versions_have_one_fallback good_env
              {| cacheDir := "/cache" |}
              {| fo_nodeRange := "node20"; fo_platform := "linux";
                 fo_arch := "x64"; fo_forceBuild := None |}
              empty_world "node20" eq_refl) as ((H1 & _) & _ & _ & H3).
  split; [exact H1 |].
  rewrite (H3 "node18" eq_refl). reflexivity.
Defined.

(** ** What a computation adds to the log *)

Lemma dirs_made_app (a b : list Event) :
  dirs_made (a ++ b) = (dirs_made a ++ dirs_made b)%list.
Proof.
  induction a as [| e a IH]; [reflexivity |].
  destruct e as [| [] | |]; cbn; now rewrite IH.
Qed.

Lemma tmp_only_app (d : string) (a b : list Event) :
  tmp_only d a -> tmp_only d b -> tmp_only d (a ++ b).
Proof.
  unfold tmp_only. rewrite dirs_made_app. intros Ha Hb.
  apply Forall_app. now split.
Qed.

Lemma new_events_app (w w' : World) (evs : list Event) :
  w_trace w' = (evs ++ w_trace w)%list -> new_events w w' = evs.
Proof.
  intros H. unfold new_events. rewrite H, length_app.
  replace (length evs + length (w_trace w) - length (w_trace w))%nat
    with (length evs) by lia.
  rewrite firstn_app, firstn_all, Nat.sub_diag. cbn [firstn].
  apply app_nil_r.
Qed.

Section Emits.

Variable env : Env.
Variable d : string.

Lemma emits_ret {A} (a : A) : emits d (ret a).
Proof.
  intros w r w' H. injection H as <- <-. exists []. split; [reflexivity |].
  constructor.
Qed.

Lemma emits_throw {A} (msg : string) : emits d (@throw A msg).
Proof.
  intros w r w' H. injection H as <- <-. exists []. split; [reflexivity |].
  constructor.
Qed.

Lemma emits_bind {A B} (m : M A) (k : A -> M B) :
  emits d m -> (forall a, emits d (k a)) -> emits d (bind m k).
Proof.
  intros Hm Hk w r w' H. unfold bind in H.
  destruct (m w) as [[a | e] w1] eqn:E.
  - destruct (Hm _ _ _ E) as (e1 & T1 & P1).
    destruct (Hk a _ _ _ H) as (e2 & T2 & P2).
    exists (e2 ++ e1)%list. rewrite T2, T1, app_assoc.
    split; [reflexivity | now apply tmp_only_app].
  - injection H as <- <-. exact (Hm _ _ _ E).
Qed.

Lemma emits_try_catch {A} (m : M A) (h : string -> M A) :
  emits d m -> (forall e, emits d (h e)) -> emits d (try_catch m h).
Proof.
  intros Hm Hh w r w' H. unfold try_catch in H.
  destruct (m w) as [[a | e] w1] eqn:E.
  - injection H as <- <-. exact (Hm _ _ _ E).
  - destruct (Hm _ _ _ E) as (e1 & T1 & P1).
    destruct (Hh e _ _ _ H) as (e2 & T2 & P2).
    exists (e2 ++ e1)%list. rewrite T2, T1, app_assoc.
    split; [reflexivity | now apply tmp_only_app].
Qed.

Lemma emits_finally {A} (m : M A) (c : M unit) :
  emits d m -> emits d c -> emits d (finally m c).
Proof.
  intros Hm Hc w r w' H. unfold finally in H.
  destruct (m w) as [r1 w1] eqn:E.
  destruct (c w1) as [rc w2] eqn:Ec.
  destruct (Hm _ _ _ E) as (e1 & T1 & P1).
  destruct (Hc _ _ _ Ec) as (e2 & T2 & P2).
  assert (w' = w2) as -> by (destruct rc; now injection H).
  exists (e2 ++ e1)%list. rewrite T2, T1, app_assoc.
  split; [reflexivity | now apply tmp_only_app].
Qed.

Lemma emits_date_now : emits d (date_now env).
Proof.
  intros w r w' H. injection H as <- <-. exists []. split; [reflexivity |].
  constructor.
Qed.

Lemma emits_fs_call (op : FsOp) :
  tmp_only d [EvFs op] -> emits d (fs_call env op).
Proof.
  intros Hop w r w' H. unfold fs_call in H. exists [EvFs op].
  destruct (fs_fault env op w); injection H as <- <-; now split.
Qed.

Lemma emits_fs_stat (p : string) : emits d (fs_stat env p).
Proof.
  intros w r w' H. unfold fs_stat in H.
  destruct (fs_call env (Stat p) w) as [[u | e] w1] eqn:E;
    injection H as <- <-;
    apply (emits_fs_call (Stat p)) in E; try exact E; constructor.
Qed.

Lemma emits_runCommand (command : string) (args : list string) :
  emits d (runCommand env command args).
Proof.
  intros w r w' H. unfold runCommand in H.
  destruct (spawn env command args w) as [[code out err | msg] disk];
    injection H as <- <-; exists [EvSpawn command args];
    (split; [reflexivity | constructor]).
Qed.

End Emits.

Ltac emits_step :=
  match goal with
  | |- emits _ (bind _ _) => apply emits_bind; [| intros ?]
  | |- emits _ (try_catch _ _) => apply emits_try_catch; [| intros ?]
  | |- emits _ (finally _ _) => apply emits_finally
  | |- emits _ (ret _) => apply emits_ret
  | |- emits _ (throw _) => apply emits_throw
  | |- emits _ (date_now _) => apply emits_date_now
  | |- emits _ (fs_stat _ _) => apply emits_fs_stat
  | |- emits _ (runCommand _ _ _) => apply emits_runCommand
  | |- emits _ (fs_call _ _) =>
      apply emits_fs_call; repeat constructor
  | |- emits _ (if ?b then _ else _) => destruct b
  | |- emits _ (match ?x with _ => _ end) => destruct x
  | |- emits _ (let '(_, _) := ?x in _) => destruct x
  end.

Section SEAEmits.

Variable env : Env.
Variable self : SEABuilder.

Lemma emits_canUseSEA (v : string) :
  emits (tempDir self) (canUseSEA env self v).
Proof. unfold canUseSEA. repeat emits_step. Qed.

Lemma emits_cleanup : emits (tempDir self) (cleanup env self).
Proof. unfold cleanup. repeat emits_step. Qed.

Lemma emits_createSEAConfig (options : SEABuildOptions) :
  emits (tempDir self) (createSEAConfig env self options).
Proof.
  unfold createSEAConfig. repeat emits_step.
  intros w r w' H. injection H as <- <-. exists []. split; [reflexivity |].
  constructor.
Qed.

Lemma emits_build_steps (options : SEABuildOptions) (startTime : Z) :
  emits (tempDir self) (build_steps env self options startTime).
Proof.
  unfold build_steps, ensureTempDir, generateBlob, copyNodeBinary,
    removeSignature, injectBlob, signBinary, moveToFinalLocation.
  repeat first [apply emits_createSEAConfig | emits_step].
Qed.

Lemma emits_build (options : SEABuildOptions) :
  emits (tempDir self) (build env self options).
Proof.
  unfold build, build_try, failed_build.
  repeat first [apply emits_build_steps | apply emits_canUseSEA
               | apply emits_cleanup | emits_step].
Qed.

End SEAEmits.

(** ** The SEA pipeline *)

Section SEAFacts.

Variable env : Env.
Variable self : SEABuilder.

Lemma canUseSEA_spec (v : string) (w : World) :
  exists b w',
    canUseSEA env self v w = (Ok b, w')
    /\ (b = true <->
        hasStableSEA v = true
        /\ exists code out err disk,
             spawn env "node" ["--help"] w = (Closed code out err, disk)
             /\ includes out "--experimental-sea-config" = true).
Proof.
  unfold canUseSEA, try_catch, bind, runCommand, ret.
  destruct (hasStableSEA v); cbn [negb].
  - destruct (spawn env "node" ["--help"] w) as [[code out err | msg] disk];
      eexists _, _; (split; [reflexivity |]); cbn [stdout]; split.
    + intros H. split; [reflexivity |]. now exists code, out, err, disk.
    + intros (_ & c & o & e & d' & E & H). now injection E as _ <- _ _.
    + discriminate.
    + intros (_ & c & o & e & d' & E & _). discriminate.
  - eexists _, _. split; [reflexivity |]. split; [discriminate |].
    intros (H & _). discriminate.
Qed.

Lemma cleanup_spec (w : World) :
  exists w',
    cleanup env self w = (Ok tt, w')
    /\ w_trace w' = EvFs (Rm (tempDir self)) :: w_trace w
    /\ (fs_fault env (Rm (tempDir self)) w = None ->
        w_exists w' = remove_tree env (tempDir self) (w_exists w))
    /\ (fs_fault env (Rm (tempDir self)) w <> None ->
        w_exists w' = fs_fault_effect env (Rm (tempDir self)) w).
Proof.
  unfold cleanup, try_catch, fs_call, ret.
  destruct (fs_fault env (Rm (tempDir self)) w) as [msg |];
    eexists; (split; [reflexivity |]); cbn; repeat split; congruence.
Qed.

Lemma cleanup_keeps_outside (w w' : World) (r : Res unit) (q : string) :
  cleanup env self w = (r, w') ->
  at_or_below env (tempDir self) q = false ->
  w_exists w' q = w_exists w q.
Proof.
  unfold cleanup, try_catch, fs_call, ret. intros H Hq.
  destruct (fs_fault env (Rm (tempDir self)) w) as [msg |];
    injection H as _ <-; cbn; unfold remove_tree; now rewrite Hq.
Qed.

Lemma ensureTempDir_spec (w : World) :
  exists w',
    ensureTempDir env self w = (Ok tt, w')
    /\ w_trace w' = EvFs (Mkdir (tempDir self)) :: w_trace w.
Proof.
  unfold ensureTempDir, try_catch, fs_call, ret.
  destruct (fs_fault env (Mkdir (tempDir self)) w) as [msg |];
    eexists; split; reflexivity.
Qed.

Lemma failed_build_spec (startTime : Z) (msg : string) (w : World) :
  failed_build env startTime msg w
  = (Ok {| res_success := false; res_outputPath := "";
           res_size := 0; res_buildTime := Date_now env w - startTime;
           res_warnings := []; res_errors := [msg] |}, w).
Proof. reflexivity. Qed.

Lemma build_try_returns (options : SEABuildOptions) (startTime : Z)
  (w : World) :
  exists r w', build_try env self options startTime w = (Ok r, w').
Proof.
  unfold build_try, try_catch.
  match goal with |- context [bind ?m ?k w] => destruct (bind m k w)
    as [[r | e] w1] end.
  - eauto.
  - rewrite failed_build_spec. eauto.
Qed.

Lemma build_try_aborts (options : SEABuildOptions) (startTime : Z)
  (w w1 : World) :
  canUseSEA env self (sea_nodeVersion options) w = (Ok false, w1) ->
  build_try env self options startTime w
  = (Ok {| res_success := false; res_outputPath := "";
           res_size := 0; res_buildTime := Date_now env w1 - startTime;
           res_warnings := [];
           res_errors := [sea_unavailable (sea_nodeVersion options)] |}, w1).
Proof.
  intros H. unfold build_try, try_catch, bind. rewrite H. reflexivity.
Qed.

Lemma build_try_proceeds (options : SEABuildOptions) (startTime : Z)
  (w w1 : World) :
  canUseSEA env self (sea_nodeVersion options) w = (Ok true, w1) ->
  exists r w' evs,
    build_try env self options startTime w = (Ok r, w')
    /\ w_trace w'
       = (evs ++ EvFs (Mkdir (tempDir self)) :: w_trace w1)%list.
Proof.
  intros H.
  destruct (ensureTempDir_spec w1) as (w2 & E2 & T2).
  pose proof (emits_build_steps env self options startTime) as Hsteps.
  unfold build_try, try_catch. unfold bind at 1. rewrite H. cbn [negb].
  destruct (build_steps env self options startTime w1) as [res w3] eqn:E3.
  assert (exists evs,
             w_trace w3 = (evs ++ EvFs (Mkdir (tempDir self)) :: w_trace w1)%list)
    as (evs & T3).
  { revert E3. unfold build_steps.
    match goal with
    | |- context [bind (ensureTempDir env self) ?k] => set (K := k)
    end.
    unfold bind at 1. rewrite E2. intros E3.
    assert (emits (tempDir self) (K tt)) as HK.
    { subst K. cbv beta.
      unfold generateBlob, copyNodeBinary, removeSignature, injectBlob,
        signBinary, moveToFinalLocation.
      repeat first [apply emits_createSEAConfig | emits_step]. }
    destruct (HK _ _ _ E3) as (evs & T & _).
    exists evs. now rewrite T, T2. }
  destruct res as [r | e].
  - now exists r, w3, evs.
  - rewrite failed_build_spec. eexists _, w3, evs. split; [reflexivity | exact T3].
Qed.

Lemma build_unfold (options : SEABuildOptions) (w : World) :
  build env self options w
  = finally (build_try env self options (Date_now env w)) (cleanup env self) w.
Proof. reflexivity. Qed.

Lemma at_or_below_refl (p : string) : at_or_below env p p = true.
Proof. unfold at_or_below. now rewrite String.eqb_refl. Qed.

End SEAFacts.

Lemma performed_all (host : Host) (before evs : list Event) :
  ended_at host before evs = None -> performed host before evs = evs.
Proof.
  induction evs as [| e earlier IH]; [reflexivity |].
  cbn [ended_at performed].
  destruct (ended_at host before earlier); [discriminate |].
  intros _. now rewrite IH.
Qed.

(** ** The orchestrator's log *)

Section HybridEmits.

Variable env : Env.
Variable self : HybridBuilder.

Lemma emits_decideBuildStrategy (target : Target)
  (options : HybridBuildOptions) :
  emits (tempDir (seaBuilder self))
    (decideBuildStrategy env self target options).
Proof.
  unfold decideBuildStrategy.
  repeat first [apply emits_canUseSEA | emits_step].
Qed.

Lemma emits_analyzeBuildDecisions_loop (targets : list Target)
  (options : HybridBuildOptions) (decisions : list BuildDecision) :
  emits (tempDir (seaBuilder self))
    (analyzeBuildDecisions_loop env self targets options decisions).
Proof.
  revert decisions. induction targets as [| t rest IH]; intros decisions.
  - apply emits_ret.
  - cbn [analyzeBuildDecisions_loop]. apply emits_bind.
    + apply emits_decideBuildStrategy.
    + intros dcs. apply IH.
Qed.

Lemma emits_buildSingleTarget (decision : BuildDecision)
  (options : HybridBuildOptions) :
  emits (tempDir (seaBuilder self))
    (buildSingleTarget env self decision options).
Proof.
  unfold buildSingleTarget.
  repeat first [apply emits_build | emits_step].
Qed.

Lemma emits_build_targets (decisions : list BuildDecision)
  (options : HybridBuildOptions) (results : list TargetResult)
  (errors : list string) :
  emits (tempDir (seaBuilder self))
    (fun w => let '(acc, w1) :=
                build_targets env self decisions options results errors w in
              (Ok acc, w1)).
Proof.
  revert results errors.
  induction decisions as [| dcs rest IH]; intros results errors w r w' H.
  - cbn in H. injection H as <- <-. exists []. split; [reflexivity |].
    constructor.
  - cbn [build_targets] in H.
    destruct (buildSingleTarget env self dcs options w) as [res w1] eqn:E.
    destruct (emits_buildSingleTarget _ _ _ _ _ E) as (e1 & T1 & P1).
    destruct res as [result | msg];
      apply IH in H; destruct H as (e2 & T2 & P2);
      exists (e2 ++ e1)%list; rewrite T2, T1, app_assoc;
      (split; [reflexivity | now apply tmp_only_app]).
Qed.

Lemma emits_hybrid_build (options : HybridBuildOptions) :
  emits (tempDir (seaBuilder self)) (hybrid_build env self options).
Proof.
  unfold hybrid_build, analyzeBuildDecisions.
  repeat first [apply emits_analyzeBuildDecisions_loop
               | apply emits_build_targets | emits_step].
Qed.

End HybridEmits.

(** C2, as stated, fails: on a machine where the blob generator exits with
    code 1 and removing the temporary directory throws (EBUSY), [build]
    for node21 creates [/proj/.pkg-temp], returns a failed result, and the
    directory still exists afterwards: [cleanup] swallows the exception. *)
Lemma busy_tempDir_outlives_build :
  let self := new_SEABuilder busy_env in
  let run :=
    build busy_env self (sea_options "node21" None None None) empty_world in
  tempDir self = "/proj/.pkg-temp"
  /\ w_exists empty_world (tempDir self) = false
  /\ fst run
     = Ok {| res_success := false; res_outputPath := ""; res_size := 0;
             res_buildTime := 4; res_warnings := [];
             res_errors :=
               ["Failed to generate SEA blob: blob generation failed"] |}
  /\ hd_error (w_trace (snd run)) = Some (EvFs (Rm (tempDir self)))
  /\ w_exists (snd run) (tempDir self) = true.
Proof.
  vm_compute. repeat split.
Qed.

(** C2, amended: whenever [build] returns, whether the pipeline succeeded
    or a step threw, it returns a result and not an exception, and the last
    thing it has done is the call removing the temporary directory; after
    [build] has returned the directory does not exist whenever that removal
    did not throw.  (When it throws, [cleanup] ignores the exception and
    the directory can still exist.) *)
Theorem cleanup_runs_last_and_removes_tempDir (env : Env) (self : SEABuilder)
  (options : SEABuildOptions) (w : World) (res : Res SEABuildResult)
  (w' : World) :
  build env self options w = (res, w') ->
  exists r w1,
    res = Ok r
    /\ build_try env self options (Date_now env w) w = (Ok r, w1)
    /\ w_trace w' = EvFs (Rm (tempDir self)) :: w_trace w1
    /\ (fs_fault env (Rm (tempDir self)) w1 = None ->
        w_exists w' (tempDir self) = false).
Proof.
  intros Hrun.
  destruct (build_try_returns env self options (Date_now env w) w)
    as (r & w1 & E1).
  destruct (cleanup_spec env self w1) as (w2 & Ec & T & Hok & _).
  rewrite build_unfold in Hrun. unfold finally in Hrun.
  rewrite E1, Ec in Hrun. injection Hrun as <- <-.
  exists r, w1. split; [reflexivity |]. split; [exact E1 |].
  split; [exact T |].
  intros Hnone. rewrite (Hok Hnone). unfold remove_tree.
  now rewrite at_or_below_refl.
Qed.

Lemma cleanup_runs_last_and_removes_tempDir_witness :
  w_exists
    (snd (build good_env (new_SEABuilder good_env)
            (sea_options "node21" None None None) empty_world))
    "/proj/.pkg-temp"
  = false.
Proof.
  destruct (cleanup_runs_last_and_removes_tempDir good_env
              (new_SEABuilder good_env) (sea_options "node21" None None None)
              empty_world _ _ (surjective_pairing _))
    as (r & w1 & _ & _ & _ & H).
  apply H. reflexivity.
Defined.

(** C3, as stated, fails: in one batch with the two native targets
    node21-linux-x64 and node22-linux-x64, both builds create and use the
    same directory [/proj/.pkg-temp]; so do two direct invocations of
    [build] on one builder. *)
Lemma two_builds_share_tempDir :
  let hb := new_HybridBuilder good_env in
  let batch :=
    hybrid_build good_env hb
      (hybrid_options [target_of "node21"; target_of "node22"] None None)
      empty_world in
  let first :=
    build good_env (seaBuilder hb) (sea_options "node21" None None None)
      empty_world in
  let second :=
    build good_env (seaBuilder hb) (sea_options "node22" None None None)
      (snd first) in
  (exists r, fst batch = Ok r
             /\ map tr_buildMode (agg_results r) = [Sea; Sea])
  /\ dirs_made (new_events empty_world (snd batch))
     = ["/proj/.pkg-temp"; "/proj/.pkg-temp"]
  /\ dirs_made (new_events empty_world (snd first)) = ["/proj/.pkg-temp"]
  /\ dirs_made (new_events (snd first) (snd second)) = ["/proj/.pkg-temp"].
Proof.
  vm_compute. split; [eexists; split; reflexivity |]. repeat split.
Qed.

(** C3, amended: the temporary working directory is fixed per builder, not
    per invocation: a [SEABuilder] takes it at construction as
    [path.join(process.cwd(), '.pkg-temp')], a [HybridBuilder] holds one
    [SEABuilder], and every directory an invocation of [SEABuilder.build],
    or a whole batch of [HybridBuilder.build], creates is that one
    directory; two invocations on one builder use the same directory. *)
Theorem tempDir_fixed_per_builder (env : Env) (self : SEABuilder)
  (hb : HybridBuilder) (options : SEABuildOptions)
  (batch : HybridBuildOptions) (w : World) :
  tempDir (new_SEABuilder env) = path_join env (process_cwd env) ".pkg-temp"
  /\ seaBuilder (new_HybridBuilder env) = new_SEABuilder env
  /\ Forall (fun p => p = tempDir self)
       (dirs_made (new_events w (snd (build env self options w))))
  /\ Forall (fun p => p = tempDir (seaBuilder hb))
       (dirs_made (new_events w (snd (hybrid_build env hb batch w)))).
Proof.
  split; [reflexivity |]. split; [reflexivity |]. split.
  - destruct (build env self options w) as [r w'] eqn:E.
    destruct (emits_build env self options _ _ _ E) as (evs & T & P).
    cbn [snd]. now rewrite (new_events_app _ _ _ T).
  - destruct (hybrid_build env hb batch w) as [r w'] eqn:E.
    destruct (emits_hybrid_build env hb batch _ _ _ E) as (evs & T & P).
    cbn [snd]. now rewrite (new_events_app _ _ _ T).
Qed.

(** C4, as stated, fails: node20 has [hasNativeSEA = true], yet [build]
    aborts at its capability check: it returns the failed result of the
    check and does nothing but the final cleanup (no directory is created),
    because [canUseSEA] asks for stable SEA. *)
Lemma node20_native_but_build_aborts :
  let self := new_SEABuilder good_env in
  let run :=
    build good_env self (sea_options "node20" None None None) empty_world in
  hasNativeSEA (getSEACapabilities "node20") = true
  /\ fst run
     = Ok {| res_success := false; res_outputPath := ""; res_size := 0;
             res_buildTime := 0; res_warnings := [];
             res_errors :=
               ["Node.js node20 does not support SEA or SEA is not available"]
          |}
  /\ new_events empty_world (snd run) = [EvFs (Rm "/proj/.pkg-temp")].
Proof.
  vm_compute. repeat split.
Qed.

(** C4, amended: [build] aborts at its initial capability check (it returns
    the failed result carrying the check's message, and between the check
    and its return only the cleanup runs) if and only if [canUseSEA] of the
    version is false, that is, unless the version has stable SEA (node21 to
    node24) and [node --help] lists [--experimental-sea-config]; otherwise
    the pipeline proceeds past the check and creates its temporary
    directory.  A version with [hasNativeSEA = false] always aborts; one
    with [hasNativeSEA = true] need not proceed. *)
Theorem build_aborts_iff_cannot_use_SEA (env : Env) (self : SEABuilder)
  (options : SEABuildOptions) (w : World) :
  let v := sea_nodeVersion options in
  exists canUse w1 r w',
    canUseSEA env self v w = (Ok canUse, w1)
    /\ build env self options w = (Ok r, w')
    /\ (canUse = true <->
        hasStableSEA v = true
        /\ exists code out err disk,
             spawn env "node" ["--help"] w = (Closed code out err, disk)
             /\ includes out "--experimental-sea-config" = true)
    /\ (canUse = false <->
        new_events w1 w' = [EvFs (Rm (tempDir self))])
    /\ (canUse = false ->
        res_success r = false /\ res_outputPath r = ""
        /\ res_errors r = [sea_unavailable v])
    /\ (canUse = true <->
        In (EvFs (Mkdir (tempDir self))) (new_events w1 w'))
    /\ (hasNativeSEA (getSEACapabilities v) = false -> canUse = false).
Proof.
  intros v.
  destruct (canUseSEA_spec env self v w) as (canUse & w1 & E & Hcan).
  exists canUse, w1.
  assert (hasNativeSEA (getSEACapabilities v) = false -> canUse = false)
    as Hnative.
  { intros Hn. destruct canUse; [| reflexivity].
    destruct Hcan as [Hcan _]. destruct (Hcan eq_refl) as [Hs _].
    apply hasStableSEA_hasNativeSEA in Hs. congruence. }
  destruct canUse.
  - destruct (build_try_proceeds env self options (Date_now env w) w w1 E)
      as (r & w3 & evs & E3 & T3).
    destruct (cleanup_spec env self w3) as (w' & Ec & T & _).
    exists r, w'. split; [exact E |]. split.
    { rewrite build_unfold. unfold finally. now rewrite E3, Ec. }
    assert (new_events w1 w'
            = EvFs (Rm (tempDir self))
                :: (evs ++ [EvFs (Mkdir (tempDir self))])%list) as Hnew.
    { apply new_events_app. rewrite T, T3. cbn. now rewrite <- app_assoc. }
    rewrite Hnew. split; [exact Hcan |]. split; [| split; [| split]].
    + split; [discriminate |]. intros H. injection H as H.
      now destruct evs.
    + discriminate.
    + split; [| reflexivity]. intros _. right.
      apply in_or_app. right. now left.
    + exact Hnative.
  - pose proof (build_try_aborts env self options (Date_now env w) w w1 E)
      as E3.
    destruct (cleanup_spec env self w1) as (w' & Ec & T & _).
    eexists _, w'. split; [exact E |]. split.
    { rewrite build_unfold. unfold finally. now rewrite E3, Ec. }
    assert (new_events w1 w' = [EvFs (Rm (tempDir self))]) as Hnew.
    { apply new_events_app. now rewrite T. }
    rewrite Hnew. split; [exact Hcan |]. split; [| split; [| split]].
    + split; reflexivity.
    + intros _. cbn. auto.
    + split; [discriminate |]. intros [H | []]. discriminate.
    + exact Hnative.
Qed.

Lemma build_aborts_iff_cannot_use_SEA_witness :
  exists r w',
    build good_env (new_SEABuilder good_env)
      (sea_options "node19" None None None) empty_world = (Ok r, w')
    /\ res_errors r = [sea_unavailable "node19"].
Proof.
  destruct (build_aborts_iff_cannot_use_SEA good_env
              (new_SEABuilder good_env) (sea_options "node19" None None None)
              empty_world) as (canUse & w1 & r & w' & Ec & E & _ & _ & H & _).
  exists r, w'. split; [exact E |]. apply H.
  vm_compute in Ec. now injection Ec as <- _.
Defined.

(** ** The orchestrator *)

Lemma filter_partition_length {A} (f : A -> bool) (l : list A) :
  (length (List.filter f l)
   + length (List.filter (fun x => negb (f x)) l))%nat = length l.
Proof.
  induction l as [| x l IH]; [reflexivity |].
  cbn. destruct (f x); cbn; lia.
Qed.

Section HybridFacts.

Variable env : Env.
Variable self : HybridBuilder.

Lemma build_returns (sb : SEABuilder) (options : SEABuildOptions)
  (w : World) :
  exists r w', build env sb options w = (Ok r, w').
Proof.
  destruct (build_try_returns env sb options (Date_now env w) w)
    as (r & w1 & E1).
  destruct (cleanup_spec env sb w1) as (w' & Ec & _).
  exists r, w'. rewrite build_unfold. unfold finally. now rewrite E1, Ec.
Qed.

Lemma analyzeBuildDecisions_loop_returns (targets : list Target)
  (options : HybridBuildOptions) (decisions : list BuildDecision)
  (w : World) :
  exists ds w',
    analyzeBuildDecisions_loop env self targets options decisions w
    = (Ok (decisions ++ ds)%list, w')
    /\ map dec_target ds = targets.
Proof.
  revert decisions w.
  induction targets as [| t rest IH]; intros decisions w.
  - exists [], w. rewrite app_nil_r. split; reflexivity.
  - cbn [analyzeBuildDecisions_loop]. unfold bind.
    destruct (decideBuildStrategy_returns env self t options w)
      as (dcs & w1 & E & Ht & _).
    rewrite E.
    destruct (IH (decisions ++ [dcs])%list w1) as (ds & w' & E' & Hm).
    exists (dcs :: ds), w'. rewrite E', <- app_assoc. cbn.
    split; [reflexivity | now rewrite Ht, Hm].
Qed.

Lemma buildSingleTarget_returns (decision : BuildDecision)
  (options : HybridBuildOptions) (w : World) :
  exists result w',
    buildSingleTarget env self decision options w = (Ok result, w')
    /\ tr_target result = dec_target decision.
Proof.
  unfold buildSingleTarget. destruct (dec_buildMode decision).
  - unfold bind.
    match goal with
    | |- context [build env ?sb ?o w] =>
        destruct (build_returns sb o w) as (r & w' & E); rewrite E
    end.
    eexists _, _. split; reflexivity.
  - eexists _, _. split; reflexivity.
Qed.

(** The loop pushes one result per decision, in order, keeps the errors it
    was given and adds the errors of every failed result. *)
Lemma build_targets_spec (decisions : list BuildDecision)
  (options : HybridBuildOptions) (results : list TargetResult)
  (errors : list string) (w : World) :
  exists new es w',
    build_targets env self decisions options results errors w
    = ((results ++ new, errors ++ es)%list, w')
    /\ map tr_target new = map dec_target decisions
    /\ Forall (fun t => res_success (tr_result t) = false ->
                        incl (res_errors (tr_result t)) es) new.
Proof.
  revert results errors w.
  induction decisions as [| dcs rest IH]; intros results errors w.
  - exists [], [], w. cbn. rewrite !app_nil_r. repeat split. constructor.
  - cbn [build_targets].
    destruct (buildSingleTarget_returns dcs options w)
      as (result & w1 & E & Ht).
    rewrite E.
    destruct (res_success (tr_result result)) eqn:Hs.
    + destruct (IH (results ++ [result])%list errors w1)
        as (new & es' & w' & E' & Hm & Hf).
      exists (result :: new), es', w'. rewrite E', <- app_assoc. cbn.
      split; [reflexivity |]. split; [now rewrite Ht, Hm |].
      constructor; [congruence | exact Hf].
    + destruct (IH (results ++ [result])%list
                  (errors ++ res_errors (tr_result result))%list w1)
        as (new & es' & w' & E' & Hm & Hf).
      exists (result :: new), (res_errors (tr_result result) ++ es')%list, w'.
      rewrite E', <- !app_assoc. cbn.
      split; [reflexivity |]. split; [now rewrite Ht, Hm |].
      constructor.
      * intros _. apply incl_appl, incl_refl.
      * eapply Forall_impl; [exact Hf |]. cbn. intros t H Hfail.
        apply incl_appr. now apply H.
Qed.

End HybridFacts.

Section BatchRuns.

Variable env : Env.
Variable self : HybridBuilder.
Variable options : HybridBuildOptions.

Lemma analyze_loop_decided (targets : list Target) :
  forall decisions w,
  exists ds w',
    analyzeBuildDecisions_loop env self targets options decisions w
    = (Ok (decisions ++ ds)%list, w')
    /\ decided env self options targets w ds w'.
Proof.
  induction targets as [| t rest IH]; intros decisions w.
  - exists [], w. rewrite app_nil_r. split; [reflexivity | constructor].
  - cbn [analyzeBuildDecisions_loop]. unfold bind.
    destruct (decideBuildStrategy_returns env self t options w)
      as (d & w1 & E & _).
    rewrite E.
    destruct (IH (decisions ++ [d])%list w1) as (ds & w' & E' & Hd).
    exists (d :: ds), w'. rewrite E', <- app_assoc.
    split; [reflexivity |]. econstructor; eassumption.
Qed.

Lemma build_targets_built (decisions : list BuildDecision) :
  forall results errors w,
  exists new w',
    build_targets env self decisions options results errors w
    = ((results ++ new, errors ++ flat_map errors_taken new)%list, w')
    /\ built env self options decisions w new w'.
Proof.
  induction decisions as [| d rest IH]; intros results errors w.
  - exists [], w. cbn. rewrite !app_nil_r. split; [reflexivity | constructor].
  - cbn [build_targets].
    destruct (buildSingleTarget_returns env self d options w)
      as (result & w1 & E & _).
    rewrite E.
    match goal with
    | |- context [build_targets env self rest options ?rs ?es w1] =>
        destruct (IH rs es w1) as (new & w' & E' & Hb)
    end.
    exists (result :: new), w'. rewrite E'.
    cbn [flat_map]. unfold errors_taken at 2.
    rewrite <- !app_assoc. cbn [app]. split.
    + destruct (res_success (tr_result result)); cbn [app];
        now rewrite <- ?app_assoc.
    + econstructor; eassumption.
Qed.

Lemma built_length (decisions : list BuildDecision) (w w' : World)
  (results : list TargetResult) :
  built env self options decisions w results w' ->
  length results = length decisions.
Proof. induction 1; cbn; congruence. Qed.

Lemma decided_length (targets : list Target) (w w' : World)
  (decisions : list BuildDecision) :
  decided env self options targets w decisions w' ->
  length decisions = length targets.
Proof. induction 1; cbn; congruence. Qed.

End BatchRuns.

Lemma errors_taken_failed (results : list TargetResult) :
  flat_map errors_taken results
  = flat_map (fun t => res_errors (tr_result t))
      (List.filter (fun t => negb (res_success (tr_result t))) results).
Proof.
  induction results as [| t rest IH]; [reflexivity |].
  cbn [flat_map List.filter]. unfold errors_taken at 1.
  destruct (res_success (tr_result t)); cbn [negb flat_map app];
    now rewrite IH.
Qed.

(** C1: the claim fails on a host that cannot start a tool the batch
    needs.  On a machine without [signtool], take the two valid targets
    node21-win-x64 and node21-linux-x64.  The process ends at the spawn of
    [signtool] in the build of the first target: by then it has performed
    the three probes and the first target's steps up to the copy of the
    runtime, and nothing else.  The second target is never built, the
    temporary directory is not removed, and no aggregate is returned, where
    the claim promises one with two entries. *)
Theorem missing_signtool_ends_the_batch :
  let targets :=
    [{| nodeRange := "node21"; platform := "win"; arch := "x64" |};
     {| nodeRange := "node21"; platform := "linux"; arch := "x64" |}] in
  let run :=
    hybrid_build good_env (new_HybridBuilder good_env)
      (hybrid_options targets None None) empty_world in
  let done :=
    performed without_signtool [] (new_events empty_world (snd run)) in
  Forall (fun t => validateTarget t = Valid) targets
  /\ ended_at without_signtool [] (new_events empty_world (snd run))
     = Some (EvSpawn "signtool" ["remove"; "/s"; "/proj/.pkg-temp/app.exe"])
  /\ done
     = [EvSpawn "signtool" ["remove"; "/s"; "/proj/.pkg-temp/app.exe"];
        EvFs (CopyFile "/usr/bin/node" "/proj/.pkg-temp/app.exe");
        EvSpawn "node"
          ["--experimental-sea-config"; "/proj/.pkg-temp/sea-config.json"];
        EvFs (WriteFile "/proj/.pkg-temp/sea-config.json"
                {| cfg_main := "index.js";
                   cfg_output := "/proj/.pkg-temp/sea-prep.blob";
                   cfg_disableExperimentalSEAWarning := Some true;
                   cfg_useSnapshot := None;
                   cfg_useCodeCache := Some true;
                   cfg_assets := None |});
        EvFs (Mkdir "/proj/.pkg-temp");
        EvSpawn "node" ["--help"];
        EvSpawn "node" ["--help"];
        EvSpawn "node" ["--help"]]
  /\ ~ In (EvFs (Rm "/proj/.pkg-temp")) done.
Proof.
  cbv zeta. split; [repeat constructor |].
  vm_compute. split; [reflexivity |]. split; [reflexivity |].
  intros H. repeat (destruct H as [H | H]; [discriminate H |]). exact H.
Qed.

(** X26: what [HybridBuilder.build] has done whenever it returns.  It
    returns an aggregate and not an exception.  Every requested target has
    been decided by [decideBuildStrategy], in the order of the targets, and
    every decision has then been carried out by [buildSingleTarget], in the
    same order, each step starting in the world the previous one left; the
    [results] are the results of these builds, one per target, so no
    failure of a target keeps a later target from being built.  With
    [failed] the entries whose result failed, [success] is true exactly
    when there is none, and the aggregate errors are the errors of the
    failed entries, in order. *)
Theorem hybrid_build_builds_every_target (env : Env) (self : HybridBuilder)
  (options : HybridBuildOptions) (w : World) (res : Res HybridBuildResult)
  (w' : World) :
  hybrid_build env self options w = (res, w') ->
  exists r decisions w1,
    res = Ok r
    /\ decided env self options (hyb_targets options) w decisions w1
    /\ built env self options decisions w1 (agg_results r) w'
    /\ length (agg_results r) = length (hyb_targets options)
    /\ (let failed :=
          List.filter (fun t => negb (res_success (tr_result t)))
            (agg_results r) in
        agg_success r = (length failed =? 0)%nat
        /\ agg_errors r
           = flat_map (fun t => res_errors (tr_result t)) failed).
Proof.
  intros Hrun.
  destruct (analyze_loop_decided env self options (hyb_targets options) [] w)
    as (ds & w1 & E1 & Hd).
  destruct (build_targets_built env self options ds [] [] w1)
    as (new & w2 & E2 & Hb).
  revert Hrun. unfold hybrid_build, analyzeBuildDecisions, try_catch.
  unfold bind at 1. unfold date_now at 1. unfold bind at 1.
  rewrite E1. cbn [app]. unfold bind at 1. rewrite E2. cbn [app].
  unfold bind, date_now, ret. cbn [fst snd]. intros Hrun.
  injection Hrun as <- <-.
  eexists _, ds, w1. split; [reflexivity |]. split; [exact Hd |].
  cbn [agg_results agg_success agg_errors]. split; [exact Hb |].
  split; [| split].
  - rewrite (built_length env self options _ _ _ _ Hb).
    exact (decided_length env self options _ _ _ _ Hd).
  - pose proof (filter_partition_length
                  (fun t => res_success (tr_result t)) new) as Hlen.
    destruct (Nat.eqb_spec
                (length (List.filter
                           (fun t => negb (res_success (tr_result t))) new))
                0) as [Hz | Hz];
      [apply Nat.eqb_eq | apply Nat.eqb_neq]; lia.
  - apply errors_taken_failed.
Qed.

Lemma hybrid_build_builds_every_target_witness :
  exists r,
    fst (hybrid_build good_env (new_HybridBuilder good_env)
           (hybrid_options [target_of "node21"; target_of "node6"] None None)
           empty_world)
    = Ok r
    /\ length (agg_results r) = 2%nat.
Proof.
  destruct (hybrid_build_builds_every_target good_env
              (new_HybridBuilder good_env)
              (hybrid_options [target_of "node21"; target_of "node6"]
                 None None)
              empty_world _ _ (surjective_pairing _))
    as (r & ds & w1 & E & _ & _ & Hlen & _).
  exists r. split; [exact E | exact Hlen].
Defined.

(** ** The configuration record *)

Section Assets.

Variable env : Env.
Variable d : Disk.

Let key (asset : string) : string :=
  path_relative env (process_cwd env) asset.

Let step (seaAssets : gmap string string) (asset : string)
  : gmap string string :=
  if d asset then set_property (key asset) asset seaAssets else seaAssets.

Lemma lookup_set_property_eq (k v : string) (m : gmap string string) :
  k <> "__proto__" -> set_property k v m !! k = Some v.
Proof.
  intros Hk. unfold set_property.
  destruct (String.eqb_spec k "__proto__"); [contradiction |].
  apply lookup_insert_eq.
Qed.

Lemma lookup_set_property_ne (k k' v : string) (m : gmap string string) :
  k <> k' -> set_property k v m !! k' = m !! k'.
Proof.
  intros Hk. unfold set_property.
  destruct (String.eqb k "__proto__"); [reflexivity |].
  now apply lookup_insert_ne.
Qed.

(** Every entry of the result was there before or comes from a declared
    asset that exists on disk, under that asset's relative key, which is
    not ['__proto__']. *)
Lemma fold_assets_lookup (assets : list string) (m : gmap string string)
  (k a : string) :
  fold_left step assets m !! k = Some a ->
  m !! k = Some a
  \/ (In a assets /\ d a = true /\ k = key a /\ k <> "__proto__").
Proof.
  revert m. induction assets as [| x rest IH]; intros m H; [now left |].
  cbn [fold_left] in H. apply IH in H as [H | (Hin & Hd & Hk)].
  - unfold step in H. destruct (d x) eqn:Hx; [| now left].
    destruct (decide (key x = k)) as [<- | Hne].
    + unfold set_property in H.
      destruct (String.eqb_spec (key x) "__proto__") as [Hp | Hp];
        [now left |].
      rewrite lookup_insert_eq in H. injection H as <-.
      right. split; [now left | now repeat split].
    + rewrite lookup_set_property_ne in H by exact Hne. now left.
  - right. split; [now right | exact (conj Hd Hk)].
Qed.

(** A key that is bound stays bound: to the same value, or to a later
    declared asset that exists on disk and has this key. *)
Lemma fold_assets_keeps (assets : list string) (m : gmap string string)
  (k v : string) :
  m !! k = Some v ->
  exists a', fold_left step assets m !! k = Some a'
             /\ (a' = v \/ (In a' assets /\ d a' = true /\ key a' = k)).
Proof.
  revert m v. induction assets as [| x rest IH]; intros m v H.
  - exists v. split; [exact H | now left].
  - cbn [fold_left]. unfold step at 2. destruct (d x) eqn:Hx.
    + destruct (decide (key x = k)) as [Hk | Hne].
      * unfold set_property.
        destruct (String.eqb_spec (key x) "__proto__") as [Hp | Hp].
        -- destruct (IH m v H) as (a' & E & Ha').
           exists a'. split; [exact E |].
           destruct Ha' as [-> | (Hin & Hd & Hk')]; [now left |].
           right. split; [now right | now split].
        -- destruct (IH (<[key x := x]> m) x) as (a' & E & Ha').
           { rewrite Hk. apply lookup_insert_eq. }
           exists a'. split; [exact E |]. right.
           destruct Ha' as [-> | (Hin & Hd & Hk')].
           ++ split; [now left | now split].
           ++ split; [now right | now split].
      * destruct (IH (set_property (key x) x m) v) as (a' & E & Ha').
        { now rewrite lookup_set_property_ne. }
        exists a'. split; [exact E |].
        destruct Ha' as [-> | (Hin & Hd & Hk')]; [now left |].
        right. split; [now right | now split].
    + destruct (IH m v H) as (a' & E & Ha').
      exists a'. split; [exact E |].
      destruct Ha' as [-> | (Hin & Hd & Hk')]; [now left |].
      right. split; [now right | now split].
Qed.

(** The key of every declared asset that exists on disk, unless it is
    ['__proto__'], is bound, to a declared asset that exists on disk and
    has this key. *)
Lemma fold_assets_present (assets : list string) (m : gmap string string)
  (a : string) :
  In a assets -> d a = true -> key a <> "__proto__" ->
  exists a', fold_left step assets m !! key a = Some a'
             /\ In a' assets /\ d a' = true /\ key a' = key a.
Proof.
  revert m. induction assets as [| x rest IH]; intros m Hin Hd Hp; [easy |].
  destruct Hin as [-> | Hin].
  - cbn [fold_left]. unfold step at 2. rewrite Hd.
    destruct (fold_assets_keeps rest (set_property (key a) a m) (key a) a)
      as (a' & E & Ha').
    { now apply lookup_set_property_eq. }
    exists a'. split; [exact E |].
    destruct Ha' as [-> | (Hin & Hd' & Hk)].
    + split; [now left | now split].
    + split; [now right | now split].
  - cbn [fold_left].
    destruct (IH (step m x) Hin Hd Hp) as (a' & E & Ha & Hd' & Hk).
    exists a'. split; [exact E |]. split; [now right | now split].
Qed.

Lemma convertAssets_spec (assets : list string) :
  (forall k a, convertAssets env d assets !! k = Some a ->
               In a assets /\ d a = true /\ k = key a /\ k <> "__proto__")
  /\ (forall a, In a assets -> d a = true -> key a <> "__proto__" ->
      exists a', convertAssets env d assets !! key a = Some a'
                 /\ In a' assets /\ d a' = true /\ key a' = key a)
  /\ convertAssets env d assets !! "__proto__" = None.
Proof.
  assert (Hentries : forall k a, convertAssets env d assets !! k = Some a ->
            In a assets /\ d a = true /\ k = key a /\ k <> "__proto__").
  { intros k a H. apply fold_assets_lookup in H as [H | H]; [| exact H].
    now rewrite lookup_empty in H. }
  split; [exact Hentries |]. split.
  - intros a. apply fold_assets_present.
  - destruct (convertAssets env d assets !! "__proto__") as [a |] eqn:E;
      [| reflexivity].
    now destruct (Hentries _ _ E) as (_ & _ & _ & Hp).
Qed.

End Assets.

(** C8: the claim fails on a declared asset whose project-relative key is
    ['__proto__'].  With the two assets [/proj/__proto__] and
    [/proj/assets/logo.png] declared and both on disk, and a version whose
    capabilities have [supportsAssets], the configuration record
    [createSEAConfig] emits has an [assets] mapping in which the second is
    mapped from its key and the first is not mapped at all:
    [seaAssets['__proto__'] = asset] stores nothing in an object literal. *)
Theorem proto_asset_is_not_mapped :
  let assets := ["/proj/__proto__"; "/proj/assets/logo.png"] in
  let key := path_relative good_env (process_cwd good_env) in
  let run :=
    createSEAConfig good_env (new_SEABuilder good_env)
      (sea_options "node21" (Some assets) None None) proto_world in
  supportsAssets (getSEACapabilities "node21") = true
  /\ Forall (fun a => w_exists proto_world a = true) assets
  /\ map key assets = ["__proto__"; "assets/logo.png"]
  /\ exists config seaAssets,
       fst run = Ok config
       /\ cfg_assets config = Some seaAssets
       /\ seaAssets !! "assets/logo.png" = Some "/proj/assets/logo.png"
       /\ seaAssets !! "__proto__" = None
       /\ forall k, seaAssets !! k <> Some "/proj/__proto__".
Proof.
  cbv zeta. split; [reflexivity |]. split; [repeat constructor |].
  split; [reflexivity |].
  exists (seaConfigOf good_env (new_SEABuilder good_env)
            (sea_options "node21"
               (Some ["/proj/__proto__"; "/proj/assets/logo.png"]) None None)
            (Some (convertAssets good_env (w_exists proto_world)
                     ["/proj/__proto__"; "/proj/assets/logo.png"]))).
  eexists. split; [reflexivity |]. split; [reflexivity |].
  split; [reflexivity |]. split; [reflexivity |].
  intros k H.
  destruct (convertAssets_spec good_env (w_exists proto_world)
              ["/proj/__proto__"; "/proj/assets/logo.png"]) as (H1 & _).
  apply H1 in H as (_ & _ & Hk & Hp). apply Hp. rewrite Hk. reflexivity.
Qed.



(** ** Version numerals *)

Lemma leading_digits_uint (d : Decimal.uint) (acc : nat) :
  leading_digits (Some (Z.of_nat acc)) (NilEmpty.string_of_uint d)
  = Some (Z.of_nat (Nat.of_uint_acc d acc)).
Proof.
  revert acc. induction d as [| d IH | d IH | d IH | d IH | d IH | d IH
                               | d IH | d IH | d IH | d IH]; intros acc;
    [reflexivity | ..];
    cbn [NilEmpty.string_of_uint Nat.of_uint_acc leading_digits];
    rewrite <- IH;
    match goal with |- context [digit_of ?c] =>
      let v := eval vm_compute in (digit_of c) in
      change (digit_of c) with v end;
    cbv iota; do 2 f_equal; cbn [default];
    rewrite Nat.tail_mul_spec; unfold id; lia.
Qed.

Lemma to_uint_nonnil (n : nat) : Nat.to_uint n <> Decimal.Nil.
Proof.
  rewrite <- (Unsigned.of_to n) at 1. rewrite Unsigned.to_of.
  apply unorm_nonnil.
Qed.

(** A numeral starts with a digit. *)
Lemma decimal_head (n : nat) :
  exists c t,
    decimal n = String c t
    /\ In c ["0"; "1"; "2"; "3"; "4"; "5"; "6"; "7"; "8"; "9"]%char.
Proof.
  unfold decimal. pose proof (to_uint_nonnil n) as H.
  destruct (Nat.to_uint n); [congruence | ..];
    cbn [NilEmpty.string_of_uint]; eexists _, _;
    (split; [reflexivity |]); cbn; tauto.
Qed.

Ltac digit_cases H :=
  cbn [In] in H;
  repeat (destruct H as [H | H]; [subst |]); [.. | destruct H].

Lemma skip_white_space_digit (c : ascii) (t : string) :
  In c ["0"; "1"; "2"; "3"; "4"; "5"; "6"; "7"; "8"; "9"]%char ->
  skip_white_space (String c t) = String c t.
Proof.
  intros Hc. digit_cases Hc; destruct t as [| c2 [| c3 t3]]; reflexivity.
Qed.

Lemma parseInt_unsigned (c : ascii) (t : string) :
  In c ["0"; "1"; "2"; "3"; "4"; "5"; "6"; "7"; "8"; "9"]%char ->
  parseInt (String c t)
  = match leading_digits None (String c t) with
    | None => NaN
    | Some n => Num n
    end.
Proof.
  intros Hc. unfold parseInt. rewrite skip_white_space_digit by exact Hc.
  digit_cases Hc; reflexivity.
Qed.

Lemma parseInt_decimal (n : nat) : parseInt (decimal n) = Num (Z.of_nat n).
Proof.
  destruct (decimal_head n) as (c & t & E & Hc).
  assert (leading_digits None (String c t) = Some (Z.of_nat n)) as Hl.
  { assert (leading_digits None (String c t)
            = leading_digits (Some (Z.of_nat 0)) (String c t)) as ->
        by (digit_cases Hc; reflexivity).
    rewrite <- E. unfold decimal. rewrite leading_digits_uint.
    change (Nat.of_uint_acc (Nat.to_uint n) 0)
      with (Nat.of_uint (Nat.to_uint n)).
    now rewrite Unsigned.of_to. }
  now rewrite E, parseInt_unsigned, Hl.
Qed.

Lemma replace_node_prefix (s : string) : replace "node" "" ("node" +:+ s) = s.
Proof. destruct s; reflexivity. Qed.

Lemma startsWith_node_prefix (s : string) :
  startsWith ("node" +:+ s) "node" = true.
Proof. destruct s; reflexivity. Qed.

Lemma startsWith_decimal (n : nat) : startsWith (decimal n) "node" = false.
Proof.
  destruct (decimal_head n) as (c & t & E & Hc). rewrite E.
  digit_cases Hc; reflexivity.
Qed.

Lemma getNodeVersionInfo_node_decimal (n : nat) :
  getNodeVersionInfo (decimal n) = getNodeVersionInfo ("node" +:+ decimal n).
Proof.
  unfold getNodeVersionInfo.
  now rewrite startsWith_decimal, startsWith_node_prefix.
Qed.

Lemma isSupported_node_decimal (n : nat) :
  info_isSupported (getNodeVersionInfo ("node" +:+ decimal n))
  = ((8 <=? n)%nat && (n <=? 24)%nat).
Proof.
  unfold getNodeVersionInfo. rewrite startsWith_node_prefix.
  cbn [info_isSupported]. rewrite replace_node_prefix, parseInt_decimal.
  cbn [num_ge num_le].
  destruct (Nat.leb_spec 8 n), (Nat.leb_spec n 24),
    (Z.leb_spec 8 (Z.of_nat n)), (Z.leb_spec (Z.of_nat n) 24);
    try reflexivity; lia.
Qed.

(** X1: the supported versions are exactly the majors 8 to 24: for every
    natural number [n], [node<n>] is flagged [isSupported] iff
    [8 <= n <= 24]; the bare numeral [<n>] gets the same version record
    (the prefix is optional for [getNodeVersionInfo]); the range validator
    accepts [node<n>] for the same [n] and rejects every bare numeral. *)
Theorem supported_iff_major_in_range (n : nat) :
  info_isSupported (getNodeVersionInfo ("node" +:+ decimal n))
  = ((8 <=? n)%nat && (n <=? 24)%nat)
  /\ getNodeVersionInfo (decimal n) = getNodeVersionInfo ("node" +:+ decimal n)
  /\ enhancedIsValidNodeRange ("node" +:+ decimal n)
     = ((8 <=? n)%nat && (n <=? 24)%nat)
  /\ enhancedIsValidNodeRange (decimal n) = false.
Proof.
  split; [apply isSupported_node_decimal |].
  split; [apply getNodeVersionInfo_node_decimal |]. split.
  - rewrite <- isSupported_node_decimal.
    unfold enhancedIsValidNodeRange, getNodeVersionInfo.
    rewrite startsWith_node_prefix. reflexivity.
  - unfold enhancedIsValidNodeRange. rewrite startsWith_decimal.
    destruct (decimal_head n) as (c & t & E & Hc). rewrite E.
    digit_cases Hc; reflexivity.
Qed.

Lemma supported_iff_major_in_range_witness :
  info_isSupported (getNodeVersionInfo "node24") = true
  /\ info_isSupported (getNodeVersionInfo "node25") = false
  /\ info_isSupported (getNodeVersionInfo "7") = false.
Proof.
  pose proof (supported_iff_major_in_range 24) as (H24 & _).
  pose proof (supported_iff_major_in_range 25) as (H25 & _).
  pose proof (supported_iff_major_in_range 7) as (H7 & E7 & _).
  split; [exact H24 |]. split; [exact H25 |].
  change "7" with (decimal 7). rewrite E7. exact H7.
Defined.

(** X2: on every range that starts with [node], the range validator and
    the [isSupported] flag of [getNodeVersionInfo] agree. *)
Theorem validator_agrees_with_isSupported (v : string) :
  startsWith v "node" = true ->
  enhancedIsValidNodeRange v = info_isSupported (getNodeVersionInfo v).
Proof.
  intros H. unfold enhancedIsValidNodeRange, getNodeVersionInfo.
  rewrite H. cbn [negb info_isSupported].
  destruct (String.eqb_spec v "latest") as [-> |]; [discriminate | reflexivity].
Qed.

Lemma validator_agrees_with_isSupported_witness :
  enhancedIsValidNodeRange "node20.11.1"
  = info_isSupported (getNodeVersionInfo "node20.11.1").
Proof.
  apply (validator_agrees_with_isSupported "node20.11.1"). reflexivity.
Defined.

(** ** The SEA flags of a version *)

(** The record [getNodeVersionInfo] builds is a function of its [version]
    field. *)
Lemma getNodeVersionInfo_of_version (v : string) :
  let ver := info_version (getNodeVersionInfo v) in
  getNodeVersionInfo v
  = {| info_version := ver;
       info_abi := find_abi EXTENDED_ABI_MAPPING ver;
       info_supportsSEA := array_includes SEA_SUPPORTED_VERSIONS ver;
       info_stableSEA := array_includes SEA_STABLE_VERSIONS ver;
       info_isSupported :=
         num_ge (parseInt (replace "node" "" ver)) 8
         && num_le (parseInt (replace "node" "" ver)) 24 |}.
Proof. reflexivity. Qed.

Ltac version_cases H :=
  apply array_includes_In in H; cbn [In SEA_SUPPORTED_VERSIONS
    SEA_STABLE_VERSIONS] in H;
  repeat (destruct H as [H | H]; [symmetry in H |]); [.. | destruct H].

Lemma supportsSEA_facts (v : string) :
  let info := getNodeVersionInfo v in
  info_supportsSEA info = true ->
  info_isSupported info = true
  /\ (exists abi, info_abi info = Num abi /\ 111 <= abi)
  /\ (info_stableSEA info = false <->
      info_version info = "node19" \/ info_version info = "node20")
  /\ (num_ge (parseInt (replace "node" "" (info_version info))) 20 = false
      <-> info_version info = "node19").
Proof.
  intros info. subst info. rewrite getNodeVersionInfo_of_version.
  cbv zeta. cbn [info_supportsSEA info_isSupported info_abi info_stableSEA
                 info_version].
  generalize (info_version (getNodeVersionInfo v)). intros ver H.
  version_cases H; rewrite H;
    (split; [reflexivity |]);
    (split; [eexists; split; [cbv; reflexivity | lia] |]);
    split; split; intros H'; try reflexivity; try discriminate;
    try (now left); try (now right);
    try (destruct H' as [H' | H']; discriminate).
Qed.

Lemma stableSEA_supportsSEA (v : string) :
  info_stableSEA (getNodeVersionInfo v) = true ->
  info_supportsSEA (getNodeVersionInfo v) = true.
Proof. apply stable_versions_support_SEA. Qed.

(** X3: the capability flags are nested: a version with stable SEA has SEA
    support, and a version with SEA support is a supported version whose
    ABI number is known (at least 111, never the 0 of an unknown version). *)
Theorem sea_versions_are_supported (v : string) :
  let info := getNodeVersionInfo v in
  (info_stableSEA info = true -> info_supportsSEA info = true)
  /\ (info_supportsSEA info = true ->
      info_isSupported info = true
      /\ exists abi, info_abi info = Num abi /\ 111 <= abi).
Proof.
  split; [apply stableSEA_supportsSEA |].
  intros H. destruct (supportsSEA_facts v H) as (H1 & H2 & _). now split.
Qed.

Lemma sea_versions_are_supported_witness :
  info_isSupported (getNodeVersionInfo "22") = true
  /\ exists abi, info_abi (getNodeVersionInfo "22") = Num abi /\ 111 <= abi.
Proof.
  apply (sea_versions_are_supported "22"). reflexivity.
Defined.

(** X4: [getSEACapabilities] gives the three feature flags one common value,
    [requiresPostject] the value of [hasNativeSEA], and [hasNativeSEA] the
    value of the version's [supportsSEA]; a feature flag is never set
    without [hasNativeSEA]; and node19 is the one version that has native
    SEA without assets, snapshot and code cache. *)
Theorem sea_capabilities_shape (v : string) :
  let caps := getSEACapabilities v in
  supportsSnapshot caps = supportsAssets caps
  /\ supportsCodeCache caps = supportsAssets caps
  /\ requiresPostject caps = hasNativeSEA caps
  /\ hasNativeSEA caps = info_supportsSEA (getNodeVersionInfo v)
  /\ (supportsAssets caps = true -> hasNativeSEA caps = true)
  /\ (hasNativeSEA caps = true /\ supportsAssets caps = false
      <-> info_version (getNodeVersionInfo v) = "node19").
Proof.
  intros caps. subst caps. unfold getSEACapabilities.
  pose proof (supportsSEA_facts v) as H. cbv zeta in H.
  destruct (info_supportsSEA (getNodeVersionInfo v)) eqn:Hs;
    cbn [hasNativeSEA supportsAssets supportsSnapshot supportsCodeCache
         requiresPostject negb].
  - destruct (H eq_refl) as (_ & _ & _ & H19).
    repeat split; auto; tauto.
  - assert (info_version (getNodeVersionInfo v) <> "node19") as Hne.
    { intros E. rewrite getNodeVersionInfo_of_version in Hs. cbv zeta in Hs.
      cbn [info_supportsSEA] in Hs. rewrite E in Hs. discriminate. }
    repeat split; try discriminate; try reflexivity; try tauto;
      intros; exfalso; auto; easy.
Qed.

Lemma sea_capabilities_shape_witness :
  hasNativeSEA (getSEACapabilities "node19") = true
  /\ supportsAssets (getSEACapabilities "node19") = false.
Proof.
  apply (sea_capabilities_shape "node19"). reflexivity.
Defined.

(** X5: the verdict of [getBuildStrategy]: it is 'sea' exactly for a version
    with stable SEA when neither [crossCompile] nor [hasComplexRequires] is
    set; it is 'hybrid' exactly for node19 and node20 under the same
    condition; and [hasAssets] never influences it. *)
Theorem getBuildStrategy_table (v : string) (o o' : StrategyOptions) :
  let info := getNodeVersionInfo v in
  let simple :=
    negb (truthy (so_crossCompile o))
    && negb (truthy (so_hasComplexRequires o)) in
  (getBuildStrategy v o = StrategySea
   <-> info_stableSEA info = true /\ simple = true)
  /\ (getBuildStrategy v o = StrategyHybrid
      <-> (info_version info = "node19" \/ info_version info = "node20")
          /\ simple = true)
  /\ (so_crossCompile o' = so_crossCompile o ->
      so_hasComplexRequires o' = so_hasComplexRequires o ->
      getBuildStrategy v o' = getBuildStrategy v o).
Proof.
  intros info simple. subst info simple.
  pose proof (supportsSEA_facts v) as Hsup. cbv zeta in Hsup.
  pose proof (stableSEA_supportsSEA v) as Hst.
  assert (info_version (getNodeVersionInfo v) = "node19"
          \/ info_version (getNodeVersionInfo v) = "node20"
          <-> info_supportsSEA (getNodeVersionInfo v) = true
              /\ info_stableSEA (getNodeVersionInfo v) = false) as Hyb.
  { split.
    - intros [E | E]; rewrite getNodeVersionInfo_of_version; cbv zeta;
        cbn [info_supportsSEA info_stableSEA]; rewrite E; split; reflexivity.
    - intros [Hp Hs]. destruct (Hsup Hp) as (_ & _ & H & _). now apply H. }
  assert (info_supportsSEA (getNodeVersionInfo v) = true ->
          info_isSupported (getNodeVersionInfo v) = true) as Hsupported.
  { intros Hp. now destruct (Hsup Hp). }
  clear Hsup. split; [| split].
  3: { intros E1 E2. unfold getBuildStrategy. now rewrite E1, E2. }
  all: rewrite ?Hyb; clear Hyb; revert Hst Hsupported;
    unfold getBuildStrategy, truthy;
    destruct (default false (so_crossCompile o)),
      (default false (so_hasComplexRequires o)),
      (info_stableSEA (getNodeVersionInfo v)),
      (info_supportsSEA (getNodeVersionInfo v)),
      (info_isSupported (getNodeVersionInfo v));
    cbn [negb andb]; intros Hst Hsupported;
    intuition (discriminate || congruence).
Qed.

Lemma getBuildStrategy_table_witness :
  getBuildStrategy "node20"
    {| so_crossCompile := None; so_hasComplexRequires := Some false;
       so_hasAssets := Some true |}
  = StrategyHybrid.
Proof.
  destruct (getBuildStrategy_table "node20"
              {| so_crossCompile := None; so_hasComplexRequires := Some false;
                 so_hasAssets := Some true |}
              {| so_crossCompile := None; so_hasComplexRequires := Some false;
                 so_hasAssets := None |}) as (_ & [_ H] & _).
  apply H. split; [now right | reflexivity].
Defined.

(** ** ABI numbers *)

Ltac table_cases H :=
  cbn [lookup_key EXTENDED_ABI_MAPPING EXTENDED_ABI_VERSIONS] in H;
  repeat match type of H with
         | (if String.eqb ?k ?x then _ else _) = _ =>
             destruct (String.eqb_spec k x) as [<- | ?];
             [injection H as <- |]
         end;
  [.. | discriminate H].

(** X6: the ABI table read in both directions: for every entry
    [abi -> range] of [EXTENDED_ABI_MAPPING], [enhancedAbiToNodeRange]
    maps [abi] to [range] (without consulting pkg-fetch), and
    [getNodeVersionInfo range] reports a positive ABI number, the number
    written in [abi] after its [m]. *)
Theorem abi_mapping_round_trip (abiToNodeRange : option (string -> string))
  (abi range : string) :
  lookup_key EXTENDED_ABI_MAPPING abi = Some range ->
  enhancedAbiToNodeRange abiToNodeRange abi = RangeName range
  /\ info_version (getNodeVersionInfo range) = range
  /\ info_abi (getNodeVersionInfo range) = parseInt (replace "m" "" abi)
  /\ exists n, info_abi (getNodeVersionInfo range) = Num n /\ 0 < n.
Proof.
  intros H. table_cases H;
    (split; [reflexivity |]); (split; [reflexivity |]);
    (split; [reflexivity |]); eexists; (split; [cbv; reflexivity | lia]).
Qed.

Lemma abi_mapping_round_trip_witness :
  enhancedAbiToNodeRange None "m115" = RangeName "node20"
  /\ info_abi (getNodeVersionInfo "node20") = Num 115.
Proof.
  destruct (abi_mapping_round_trip None "m115" "node20" eq_refl)
    as (H1 & _ & H2 & _).
  split; [exact H1 | exact H2].
Defined.

Lemma prototype_key_not_in_tables (key : string) :
  array_includes OBJECT_PROTOTYPE_KEYS key = true ->
  lookup_key EXTENDED_ABI_MAPPING key = None
  /\ lookup_key EXTENDED_ABI_VERSIONS key = None.
Proof.
  intros H. apply array_includes_In in H. cbn [In OBJECT_PROTOTYPE_KEYS] in H.
  repeat (destruct H as [H | H]; [subst; split; reflexivity |]).
  destruct H.
Qed.

(** X7: [ExtendedPkgFetch.enhancedAbiToNodeRange] differs from node-support's
    [enhancedAbiToNodeRange] only on the keys of [EXTENDED_ABI_VERSIONS]
    (the bare numbers 115, 120, 127): on every other string the two return
    the same value; on such a key [k] it returns the range that
    node-support's table has under [m<k>], whose version record carries
    the ABI number [k] and is an extended version. *)
Theorem extended_abi_agrees (abiToNodeRange : option (string -> string))
  (abi : string) :
  match lookup_key EXTENDED_ABI_VERSIONS abi with
  | None =>
      extended_enhancedAbiToNodeRange abiToNodeRange abi
      = enhancedAbiToNodeRange abiToNodeRange abi
  | Some range =>
      extended_enhancedAbiToNodeRange abiToNodeRange abi = RangeName range
      /\ enhancedAbiToNodeRange abiToNodeRange ("m" +:+ abi) = RangeName range
      /\ info_abi (getNodeVersionInfo range) = parseInt abi
      /\ isExtendedVersion range = true
  end.
Proof.
  destruct (lookup_key EXTENDED_ABI_VERSIONS abi) as [range |] eqn:H.
  - table_cases H; repeat split.
  - unfold extended_enhancedAbiToNodeRange, enhancedAbiToNodeRange,
      get_property. rewrite H.
    destruct (array_includes OBJECT_PROTOTYPE_KEYS abi) eqn:Hp;
      [| reflexivity].
    apply prototype_key_not_in_tables in Hp as [-> _]. reflexivity.
Qed.

(** ** The running Node.js version *)

Lemma digit_run_uint (d : Decimal.uint) (rest : string) :
  digit_run (NilEmpty.string_of_uint d +:+ String "." rest)
  = NilEmpty.string_of_uint d.
Proof.
  induction d; simpl; try reflexivity; now rewrite IHd.
Qed.

Lemma version_major_decimal (m : nat) (rest : string) :
  version_major ("v" +:+ decimal m +:+ "." +:+ rest) = decimal m.
Proof.
  change ("v" +:+ decimal m +:+ "." +:+ rest)
    with (String "v" (decimal m +:+ String "." rest)).
  change (version_major (String "v" (decimal m +:+ String "." rest)))
    with (let digits := digit_run (decimal m +:+ String "." rest) in
          if String.eqb digits "" then "0" else digits).
  cbv zeta. unfold decimal at 1 2. rewrite digit_run_uint. fold (decimal m).
  destruct (decimal_head m) as (c & t & E & _). now rewrite E.
Qed.

Lemma version_number_node_decimal (n : nat) :
  parseInt (replace "node" ""
              (info_version (getNodeVersionInfo ("node" +:+ decimal n))))
  = Num (Z.of_nat n).
Proof.
  unfold getNodeVersionInfo. rewrite startsWith_node_prefix.
  cbn [info_version]. now rewrite replace_node_prefix, parseInt_decimal.
Qed.

(** X8: [canBuildForTarget] compares majors: when [process.version] is
    [v<m>.<rest>], the target [node<n>] can be built exactly when [n <= m],
    for all majors below 2^53 (which JavaScript numbers hold exactly); a
    target whose version has no number (such as ['latest']) can never be
    built. *)
Theorem canBuildForTarget_compares_majors (m n : nat)
  (rest processVersion target : string) :
  Z.of_nat m < 2 ^ 53 -> Z.of_nat n < 2 ^ 53 ->
  canBuildForTarget ("v" +:+ decimal m +:+ "." +:+ rest)
    ("node" +:+ decimal n)
  = (n <=? m)%nat
  /\ (parseInt (replace "node" ""
                  (info_version (getNodeVersionInfo target))) = NaN ->
      canBuildForTarget processVersion target = false).
Proof.
  intros _ _. split.
  - unfold canBuildForTarget, getCurrentNodeInfo.
    rewrite version_major_decimal, !version_number_node_decimal.
    cbn [num_geq].
    destruct (Nat.leb_spec n m), (Z.leb_spec (Z.of_nat n) (Z.of_nat m));
      try reflexivity; lia.
  - intros H. unfold canBuildForTarget. rewrite H.
    destruct (parseInt
                (replace "node" ""
                   (info_version (getCurrentNodeInfo processVersion))));
      reflexivity.
Qed.

Lemma canBuildForTarget_compares_majors_witness :
  canBuildForTarget "v20.11.1" "node18" = true
  /\ canBuildForTarget "v20.11.1" "latest" = false.
Proof.
  destruct (canBuildForTarget_compares_majors 20 18 "11.1" "v20.11.1"
              "latest" eq_refl eq_refl) as [H1 H2].
  split; [exact H1 | apply H2; reflexivity].
Defined.

(** ** The decision table *)

Lemma canUseSEA_trace (env : Env) (self : SEABuilder) (v : string)
  (w : World) :
  exists b w',
    canUseSEA env self v w = (Ok b, w')
    /\ (b = true -> hasStableSEA v = true)
    /\ w_trace w'
       = ((if hasStableSEA v then [EvSpawn "node" ["--help"]] else [])
          ++ w_trace w)%list.
Proof.
  unfold canUseSEA, try_catch, bind, runCommand, ret.
  destruct (hasStableSEA v); cbn [negb].
  - destruct (spawn env "node" ["--help"] w) as [[code out err | msg] disk];
      eexists _, _; repeat split.
  - eexists _, _. repeat split. discriminate.
Qed.

Lemma truthy_true (b : option bool) : truthy b = true <-> b = Some true.
Proof. destruct b as [[|] |]; cbn; split; congruence. Qed.

(** X9: the complete decision table of [decideBuildStrategy].  An invalid
    target is decided traditional with the validation text; on a valid
    target a forced mode is taken as it is; otherwise the mode is
    traditional when [canUseSEA] is false, and when it is true the mode is
    'sea' unless [crossCompile] or [hasComplexRequires] is set.  The
    decision reports the answer of [canUseSEA] as [canUseSEA], and its
    reason is never one of the two "hybrid mode" texts: the 'hybrid'
    verdict of [getBuildStrategy] is never reached. *)
Theorem decision_table (env : Env) (self : HybridBuilder) (target : Target)
  (options : HybridBuildOptions) (w : World) :
  exists canUse w1 d w',
    canUseSEA env (seaBuilder self) (nodeRange target) w = (Ok canUse, w1)
    /\ decideBuildStrategy env self target options w = (Ok d, w')
    /\ match validateTarget target, forced_mode (hyb_forceBuildMode options)
       with
       | Invalid reason, _ =>
           dec_buildMode d = Traditional /\ dec_canUseSEA d = false
           /\ dec_reason d = "Target validation failed: " +:+ reason
       | Valid, Some forced =>
           dec_buildMode d = forced /\ dec_canUseSEA d = canUse
           /\ dec_reason d = "User forced " +:+ mode_name forced +:+ " mode"
       | Valid, None =>
           dec_canUseSEA d = canUse
           /\ if canUse then
                if truthy (hyb_crossCompile options)
                   || truthy (hyb_hasComplexRequires options)
                then dec_buildMode d = Traditional
                     /\ dec_reason d
                        = "Required for complex projects or cross-compilation"
                else dec_buildMode d = Sea
                     /\ dec_reason d
                        = "Optimal for simple projects with stable SEA support"
              else dec_buildMode d = Traditional
                   /\ dec_reason d
                      = "Node.js " +:+ nodeRange target
                        +:+ " does not support SEA"
       end.
Proof.
  destruct (canUseSEA_trace env (seaBuilder self) (nodeRange target) w)
    as (canUse & w1 & E & Hstable & _).
  exists canUse, w1. unfold decideBuildStrategy.
  destruct (validateTarget target) as [| reason] eqn:Hv.
  2: { eexists _, _. split; [first [exact E | reflexivity] |]. split; [reflexivity |].
       cbn. repeat split. }
  destruct (forced_mode (hyb_forceBuildMode options)) as [forced |];
    unfold bind; rewrite E.
  { eexists _, _. split; [first [exact E | reflexivity] |]. split; [reflexivity |].
       cbn. repeat split. }
  destruct canUse; cbn [negb].
  2: { eexists _, _. split; [first [exact E | reflexivity] |]. split; [reflexivity |].
       cbn. repeat split. }
  specialize (Hstable eq_refl). unfold hasStableSEA in Hstable.
  assert (info_isSupported (getNodeVersionInfo (nodeRange target)) = true)
    as Hsup.
  { unfold validateTarget in Hv.
    destruct (info_isSupported (getNodeVersionInfo (nodeRange target)));
      [reflexivity | discriminate]. }
  unfold getBuildStrategy, truthy. cbn [so_crossCompile so_hasComplexRequires].
  rewrite Hsup, Hstable. cbn [negb].
  destruct (default false (hyb_crossCompile options)),
    (default false (hyb_hasComplexRequires options)); cbn;
    (eexists _, _; split; [first [exact E | reflexivity] |]; split; [reflexivity |]);
    cbn; repeat split.
Qed.

(** X10: effects of a decision: [decideBuildStrategy] starts at most one
    process, [node --help], and starts it exactly for a valid target whose
    version has stable SEA; it touches nothing else. *)
Theorem decision_spawns_only_the_probe (env : Env) (self : HybridBuilder)
  (target : Target) (options : HybridBuildOptions) (w : World) :
  new_events w (snd (decideBuildStrategy env self target options w))
  = match validateTarget target with
    | Valid =>
        if hasStableSEA (nodeRange target)
        then [EvSpawn "node" ["--help"]] else []
    | Invalid _ => []
    end.
Proof.
  apply new_events_app.
  destruct (canUseSEA_trace env (seaBuilder self) (nodeRange target) w)
    as (canUse & w1 & E & _ & T).
  unfold decideBuildStrategy.
  destruct (validateTarget target) as [| reason]; [| reflexivity].
  destruct (forced_mode (hyb_forceBuildMode options)) as [forced |];
    unfold bind; rewrite E; [exact T |].
  destruct canUse; cbn [negb]; [| exact T].
  match goal with
  | |- context [let '(_, _) := ?x in _] => destruct x
  end.
  exact T.
Qed.

(** ** Steps of the pipeline, one by one *)

Lemma bind_ok_inv {A B} (m : M A) (k : A -> M B) (w w' : World) (b : B) :
  bind m k w = (Ok b, w') ->
  exists a w1, m w = (Ok a, w1) /\ k a w1 = (Ok b, w').
Proof.
  unfold bind. destruct (m w) as [[a | e] w1]; [eauto | discriminate].
Qed.

Section StepFacts.

Variable env : Env.
Variable self : SEABuilder.

Lemma runCommand_inv (command : string) (args : list string)
  (w w' : World) (r : Res CommandResult) :
  runCommand env command args w = (r, w') ->
  w_trace w' = EvSpawn command args :: w_trace w
  /\ w_exists w' = snd (spawn env command args w)
  /\ r = match fst (spawn env command args w) with
         | Closed code out err =>
             Ok {| exitCode := default 0 code; stdout := out; stderr := err |}
         | SpawnThrows msg => Throw msg
         end.
Proof.
  unfold runCommand.
  destruct (spawn env command args w) as [[code out err | msg] disk];
    intros H; injection H as <- <-; repeat split.
Qed.

Lemma fs_call_inv (op : FsOp) (w w' : World) (r : Res unit) :
  fs_call env op w = (r, w') ->
  w_trace w' = EvFs op :: w_trace w
  /\ match fs_fault env op w with
     | Some msg => r = Throw msg /\ w_exists w' = fs_fault_effect env op w
     | None => r = Ok tt /\ w_exists w' = fs_effect env op (w_exists w)
     end.
Proof.
  unfold fs_call. destruct (fs_fault env op w);
    intros H; injection H as <- <-; repeat split.
Qed.

Lemma fs_call_ok (op : FsOp) (w w' : World) (u : unit) :
  fs_call env op w = (Ok u, w') ->
  w_trace w' = EvFs op :: w_trace w
  /\ w_exists w' = fs_effect env op (w_exists w).
Proof.
  intros H. apply fs_call_inv in H as [T H].
  destruct (fs_fault env op w); destruct H as [H1 H2];
    [discriminate | now split].
Qed.

Lemma createSEAConfig_ok (options : SEABuildOptions) (w w' : World)
  (config : SEAConfig) :
  createSEAConfig env self options w = (Ok config, w') ->
  w_trace w'
  = EvFs (WriteFile (path_join env (tempDir self) "sea-config.json") config)
      :: w_trace w
  /\ cfg_output config = path_join env (tempDir self) "sea-prep.blob".
Proof.
  unfold createSEAConfig. intros H.
  apply bind_ok_inv in H as (seaAssets & w1 & H1 & H).
  assert (w1 = w) as ->.
  { destruct (sea_assets options) as [assets |];
      [destruct (supportsAssets _) |];
      cbn in H1; now injection H1. }
  apply bind_ok_inv in H as (u & w2 & H2 & H).
  injection H as <- <-. apply fs_call_ok in H2 as [T _]. now split.
Qed.

Lemma generateBlob_inv (config : SEAConfig) (w w' : World) (r : Res unit) :
  generateBlob env self config w = (r, w') ->
  let args :=
    ["--experimental-sea-config";
     path_join env (tempDir self) "sea-config.json"] in
  w_trace w' = EvSpawn "node" args :: w_trace w
  /\ r = match fst (spawn env "node" args w) with
         | Closed code out err =>
             if default 0 code =? 0 then Ok tt
             else Throw ("Failed to generate SEA blob: " +:+ err)
         | SpawnThrows msg => Throw msg
         end.
Proof.
  intros H args. unfold generateBlob, bind in H. fold args in H.
  destruct (runCommand env "node" args w) as [res w1] eqn:E.
  apply runCommand_inv in E as (T & _ & Hr). fold args in Hr.
  destruct (fst (spawn env "node" args w)) as [code out err | msg]; subst res.
  - cbn [exitCode stderr] in H.
    destruct (default 0 code =? 0); injection H as <- <-; now split.
  - injection H as <- <-. now split.
Qed.

Lemma injectBlob_inv (binaryPath blobPath platform : string) (w w' : World)
  (r : Res unit) :
  injectBlob env self binaryPath blobPath platform w = (r, w') ->
  let args := postject_args binaryPath blobPath platform in
  w_trace w' = EvSpawn "npx" args :: w_trace w
  /\ r = match fst (spawn env "npx" args w) with
         | Closed code out err =>
             if default 0 code =? 0 then Ok tt
             else Throw ("Failed to inject blob: " +:+ err)
         | SpawnThrows msg => Throw msg
         end.
Proof.
  intros H args. unfold injectBlob, bind in H.
  assert (("postject"
           :: (if String.eqb platform "macos"
               then ([binaryPath; "NODE_SEA_BLOB"; blobPath; "--sentinel-fuse";
                      "NODE_SEA_FUSE_fce680ab2cc467b6e072b8b5df1996b2"]
                     ++ ["--macho-segment-name"; "NODE_SEA"])%list
               else [binaryPath; "NODE_SEA_BLOB"; blobPath; "--sentinel-fuse";
                     "NODE_SEA_FUSE_fce680ab2cc467b6e072b8b5df1996b2"]))
          = args) as Hargs.
  { subst args. unfold postject_args.
    destruct (String.eqb platform "macos"); reflexivity. }
  rewrite Hargs in H.
  destruct (runCommand env "npx" args w) as [res w1] eqn:E.
  apply runCommand_inv in E as (T & _ & Hr).
  destruct (fst (spawn env "npx" args w)) as [code out err | msg]; subst res.
  - cbn [exitCode stderr] in H.
    destruct (default 0 code =? 0); injection H as <- <-; now split.
  - injection H as <- <-. now split.
Qed.

Lemma copyNodeBinary_ok (options : SEABuildOptions) (w w' : World)
  (binaryPath : string) :
  copyNodeBinary env self options w = (Ok binaryPath, w') ->
  binaryPath = binaryPath_of env self options
  /\ w_trace w'
     = EvFs (CopyFile (process_execPath env) binaryPath) :: w_trace w.
Proof.
  unfold copyNodeBinary. intros H.
  apply bind_ok_inv in H as (u & w1 & H1 & H).
  injection H as <- <-. apply fs_call_ok in H1 as [T _]. now split.
Qed.

(** [removeSignature]: what it logs, and when it throws. *)
Lemma removeSignature_inv (binaryPath platform : string) (w w' : World)
  (r : Res unit) :
  removeSignature env self binaryPath platform w = (r, w') ->
  w_trace w' = (unsign_events binaryPath platform ++ w_trace w)%list
  /\ (r = Ok tt
      \/ platform = "macos"
         /\ exists msg,
              r = Throw msg
              /\ fst (spawn env "codesign"
                        ["--remove-signature"; binaryPath] w)
                 = SpawnThrows msg).
Proof.
  unfold removeSignature, unsign_events, try_catch, bind, ret.
  destruct (String.eqb_spec platform "macos") as [-> | _].
  - destruct (runCommand env "codesign" _ w) as [res w1] eqn:E.
    apply runCommand_inv in E as (T & _ & Hr).
    destruct (fst (spawn env "codesign" _ w)) as [code out err | msg];
      subst res; intros H; injection H as <- <-; (split; [exact T |]).
    + now left.
    + right. split; [reflexivity |]. now exists msg.
  - destruct (String.eqb platform "win").
    + destruct (runCommand env "signtool" _ w) as [res w1] eqn:E.
      apply runCommand_inv in E as (T & _ & Hr).
      destruct res; intros H; injection H as <- <-; split; auto.
    + intros H. injection H as <- <-. split; [reflexivity | now left].
Qed.

(** [signBinary], as [build] calls it (only when asked to sign, on macOS
    and Windows). *)
Lemma signBinary_inv (sign : option bool) (binaryPath platform : string)
  (w w' : World) (r : Res unit) :
  (if truthy sign && is_macos_or_win platform
   then signBinary env self binaryPath platform else ret tt) w = (r, w') ->
  w_trace w' = (sign_events sign binaryPath platform ++ w_trace w)%list
  /\ (r = Ok tt
      \/ platform = "macos"
         /\ exists msg,
              r = Throw msg
              /\ fst (spawn env "codesign" ["--sign"; "-"; binaryPath] w)
                 = SpawnThrows msg).
Proof.
  unfold signBinary, sign_events, is_macos_or_win, try_catch, bind, ret.
  destruct (truthy sign); cbn [andb].
  2: { intros H. injection H as <- <-. split; [reflexivity | now left]. }
  destruct (String.eqb_spec platform "macos") as [-> | _]; cbn [orb].
  - destruct (runCommand env "codesign" _ w) as [res w1] eqn:E.
    apply runCommand_inv in E as (T & _ & Hr).
    destruct (fst (spawn env "codesign" _ w)) as [code out err | msg];
      subst res; intros H; injection H as <- <-; (split; [exact T |]).
    + now left.
    + right. split; [reflexivity |]. now exists msg.
  - destruct (String.eqb platform "win").
    + destruct (runCommand env "signtool" _ w) as [res w1] eqn:E.
      apply runCommand_inv in E as (T & _ & Hr).
      destruct res; intros H; injection H as <- <-; split; auto.
    + intros H. injection H as <- <-. split; [reflexivity | now left].
Qed.

Lemma unsign_events_elsewhere (binaryPath platform : string) :
  is_macos_or_win platform = false -> unsign_events binaryPath platform = [].
Proof.
  unfold is_macos_or_win, unsign_events.
  destruct (String.eqb platform "macos"), (String.eqb platform "win");
    (discriminate || reflexivity).
Qed.

End StepFacts.

(** X11: exit codes of the external tools.  [generateBlob] and [injectBlob]
    succeed exactly when their child process closes with exit code 0 or
    with no exit code at all (a child killed by a signal reports [null],
    which [runCommand] turns into 0); with any other exit code they throw
    their failure message followed by the child's standard error. *)
Theorem tools_succeed_on_exit_0_or_null (env : Env) (self : SEABuilder)
  (config : SEAConfig) (binaryPath blobPath platform : string) (w : World) :
  let gen :=
    fst (spawn env "node"
           ["--experimental-sea-config";
            path_join env (tempDir self) "sea-config.json"] w) in
  let inj :=
    fst (spawn env "npx" (postject_args binaryPath blobPath platform) w) in
  (fst (generateBlob env self config w) = Ok tt
   <-> exists code out err,
         gen = Closed code out err /\ (code = None \/ code = Some 0))
  /\ (forall code out err,
        gen = Closed code out err -> code <> None -> code <> Some 0 ->
        fst (generateBlob env self config w)
        = Throw ("Failed to generate SEA blob: " +:+ err))
  /\ (fst (injectBlob env self binaryPath blobPath platform w) = Ok tt
      <-> exists code out err,
            inj = Closed code out err /\ (code = None \/ code = Some 0))
  /\ (forall code out err,
        inj = Closed code out err -> code <> None -> code <> Some 0 ->
        fst (injectBlob env self binaryPath blobPath platform w)
        = Throw ("Failed to inject blob: " +:+ err)).
Proof.
  intros gen inj.
  destruct (generateBlob env self config w) as [r1 w1] eqn:E1.
  destruct (injectBlob env self binaryPath blobPath platform w)
    as [r2 w2] eqn:E2.
  apply generateBlob_inv in E1 as [_ H1].
  apply injectBlob_inv in E2 as [_ H2].
  cbv zeta in H1, H2. fold gen in H1. fold inj in H2. cbn [fst].
  assert (forall code : option Z,
             (default 0 code =? 0) = true <-> code = None \/ code = Some 0)
    as Hcode.
  { intros [z |]; cbn.
    - rewrite Z.eqb_eq. split; [intros ->; now right |].
      intros [H | H]; congruence.
    - split; [now left | reflexivity]. }
  split; [| split; [| split]].
  - subst r1. destruct gen as [code out err | msg].
    + destruct (default 0 code =? 0) eqn:Hc.
      * split; [| reflexivity]. intros _. exists code, out, err.
        split; [reflexivity | now apply Hcode].
      * split; [discriminate |]. intros (c & o & e & Hg & Hz).
        injection Hg as <- <- <-. apply Hcode in Hz. congruence.
    + split; [discriminate |]. intros (c & o & e & Hg & _). discriminate.
  - intros code out err Hg Hn Hz. subst r1. rewrite Hg.
    destruct (default 0 code =? 0) eqn:Hc; [| reflexivity].
    apply Hcode in Hc as [Hc | Hc]; congruence.
  - subst r2. destruct inj as [code out err | msg].
    + destruct (default 0 code =? 0) eqn:Hc.
      * split; [| reflexivity]. intros _. exists code, out, err.
        split; [reflexivity | now apply Hcode].
      * split; [discriminate |]. intros (c & o & e & Hg & Hz).
        injection Hg as <- <- <-. apply Hcode in Hz. congruence.
    + split; [discriminate |]. intros (c & o & e & Hg & _). discriminate.
  - intros code out err Hg Hn Hz. subst r2. rewrite Hg.
    destruct (default 0 code =? 0) eqn:Hc; [| reflexivity].
    apply Hcode in Hc as [Hc | Hc]; congruence.
Qed.

Lemma tools_succeed_on_exit_0_or_null_witness :
  fst (generateBlob busy_env (new_SEABuilder busy_env)
         (seaConfigOf busy_env (new_SEABuilder busy_env)
            (sea_options "node21" None None None) None)
         empty_world)
  = Throw "Failed to generate SEA blob: blob generation failed".
Proof.
  pose proof (tools_succeed_on_exit_0_or_null busy_env
                (new_SEABuilder busy_env)
                (seaConfigOf busy_env (new_SEABuilder busy_env)
                   (sea_options "node21" None None None) None)
                "bin" "blob" "linux" empty_world) as H.
  cbv zeta in H. destruct H as (_ & H & _).
  apply (H (Some 1) "" "blob generation failed");
    [reflexivity | discriminate | discriminate].
Defined.

(** X12: the signature steps.  On Windows neither [removeSignature] nor
    [signBinary] ever throws: whenever the call settles it has succeeded,
    whatever [signtool] did.  That does not cover a [signtool] that is
    missing, the case the comments of the source name: on a host that
    cannot start it the call settles nothing and the process ends at that
    spawn.  On macOS the steps succeed whenever [codesign] runs to its end,
    whatever its exit code, and on every other platform they do nothing at
    all. *)
Theorem signature_steps_are_tolerant (env : Env) (self : SEABuilder)
  (binaryPath platform : string) (w : World) :
  (forall r w',
     removeSignature env self binaryPath "win" w = (r, w') -> r = Ok tt)
  /\ (forall r w',
        signBinary env self binaryPath "win" w = (r, w') -> r = Ok tt)
  /\ (forall host : Host,
        host "signtool" ["remove"; "/s"; binaryPath] (w_trace w) = false ->
        ended_at host (w_trace w)
          (new_events w (snd (removeSignature env self binaryPath "win" w)))
        = Some (EvSpawn "signtool" ["remove"; "/s"; binaryPath]))
  /\ (forall code out err,
        fst (spawn env "codesign" ["--remove-signature"; binaryPath] w)
        = Closed code out err ->
        fst (removeSignature env self binaryPath "macos" w) = Ok tt)
  /\ (forall code out err,
        fst (spawn env "codesign" ["--sign"; "-"; binaryPath] w)
        = Closed code out err ->
        fst (signBinary env self binaryPath "macos" w) = Ok tt)
  /\ (is_macos_or_win platform = false ->
      removeSignature env self binaryPath platform w = (Ok tt, w)
      /\ signBinary env self binaryPath platform w = (Ok tt, w)).
Proof.
  assert (forall p sign r w',
             (if truthy sign && is_macos_or_win p
              then signBinary env self binaryPath p else ret tt) w = (r, w') ->
             r = Ok tt
             \/ p = "macos"
                /\ exists msg,
                     r = Throw msg
                     /\ fst (spawn env "codesign" ["--sign"; "-"; binaryPath] w)
                        = SpawnThrows msg) as Hsign.
  { intros p sign r w' H. now apply signBinary_inv in H as [_ H]. }
  split; [| split; [| split; [| split; [| split]]]].
  - intros r w' E.
    apply removeSignature_inv in E as [_ [-> | [H _]]];
      [reflexivity | discriminate].
  - intros r w' E.
    destruct (Hsign "win" (Some true) r w' E) as [-> | [H _]];
      [reflexivity | discriminate].
  - intros host Hhost.
    destruct (removeSignature env self binaryPath "win" w) as [r w'] eqn:E.
    apply removeSignature_inv in E as [T _]. cbn [snd].
    rewrite (new_events_app _ _ _ T). cbn. now rewrite Hhost.
  - intros code out err H.
    destruct (removeSignature env self binaryPath "macos" w) as [r w'] eqn:E.
    apply removeSignature_inv in E as [_ [-> | [_ (msg & _ & H')]]];
      [reflexivity | congruence].
  - intros code out err H.
    destruct (signBinary env self binaryPath "macos" w) as [r w'] eqn:E.
    destruct (Hsign "macos" (Some true) r w' E) as [-> | [_ (msg & _ & H')]];
      [reflexivity | congruence].
  - unfold is_macos_or_win, removeSignature, signBinary.
    destruct (String.eqb platform "macos"), (String.eqb platform "win");
      try discriminate. intros _. split; reflexivity.
Qed.

Lemma signature_steps_are_tolerant_witness :
  removeSignature good_env (new_SEABuilder good_env) "/proj/.pkg-temp/app"
    "linux" empty_world
  = (Ok tt, empty_world)
  /\ ended_at without_signtool []
       (new_events empty_world
          (snd (removeSignature good_env (new_SEABuilder good_env)
                  "/proj/.pkg-temp/app.exe" "win" empty_world)))
     = Some (EvSpawn "signtool" ["remove"; "/s"; "/proj/.pkg-temp/app.exe"]).
Proof.
  split.
  - apply (signature_steps_are_tolerant good_env (new_SEABuilder good_env)
             "/proj/.pkg-temp/app" "linux" empty_world).
    reflexivity.
  - apply (signature_steps_are_tolerant good_env (new_SEABuilder good_env)
             "/proj/.pkg-temp/app.exe" "linux" empty_world).
    reflexivity.
Defined.

(** ** A whole run of the pipeline *)

Section RunFacts.

Variable env : Env.
Variable self : SEABuilder.
Variable options : SEABuildOptions.

Let bin : string := binaryPath_of env self options.
Let out : string := sea_output options.
Let configPath : string := path_join env (tempDir self) "sea-config.json".
Let blobPath : string := path_join env (tempDir self) "sea-prep.blob".

(** The events of the steps after the capability check, when all of them
    succeed; most recent first. *)
Let steps_events (config : SEAConfig) : list Event :=
  (EvFs (Stat out) :: EvFs (Rename bin out)
   :: sign_events (sea_signBinary options) bin (sea_platform options)
   ++ EvSpawn "npx" (postject_args bin blobPath (sea_platform options))
   :: unsign_events bin (sea_platform options)
   ++ [EvFs (CopyFile (process_execPath env) bin);
       EvSpawn "node" ["--experimental-sea-config"; configPath];
       EvFs (WriteFile configPath config);
       EvFs (Mkdir (tempDir self))])%list.

Lemma build_steps_ok (startTime : Z) (w w' : World) (r : SEABuildResult) :
  build_steps env self options startTime w = (Ok r, w') ->
  res_success r = true /\ res_outputPath r = out
  /\ res_warnings r = [] /\ res_errors r = []
  /\ w_exists w' out = true
  /\ exists config, w_trace w' = (steps_events config ++ w_trace w)%list.
Proof.
  unfold build_steps. intros H.
  apply bind_ok_inv in H as (u1 & w1 & H1 & H).
  destruct (ensureTempDir_spec env self w) as (w1' & E1 & T1).
  rewrite E1 in H1. injection H1 as _ <-.
  apply bind_ok_inv in H as (config & w2 & H2 & H).
  apply createSEAConfig_ok in H2 as [T2 Hblob].
  apply bind_ok_inv in H as (u3 & w3 & H3 & H).
  apply generateBlob_inv in H3 as [T3 _].
  apply bind_ok_inv in H as (binaryPath & w4 & H4 & H).
  apply copyNodeBinary_ok in H4 as [-> T4]. fold bin in T4, H.
  apply bind_ok_inv in H as (u5 & w5 & H5 & H).
  assert (w_trace w5
          = (unsign_events bin (sea_platform options) ++ w_trace w4)%list)
    as T5.
  { destruct (is_macos_or_win (sea_platform options)) eqn:Hp.
    - now apply removeSignature_inv in H5 as [T5 _].
    - injection H5 as _ <-. now rewrite unsign_events_elsewhere. }
  apply bind_ok_inv in H as (u6 & w6 & H6 & H).
  apply injectBlob_inv in H6 as [T6 _]. rewrite Hblob in T6. fold blobPath in T6.
  apply bind_ok_inv in H as (u7 & w7 & H7 & H).
  apply signBinary_inv in H7 as [T7 _].
  apply bind_ok_inv in H as (finalPath & w8 & H8 & H).
  unfold moveToFinalLocation in H8.
  apply bind_ok_inv in H8 as (u8 & w8' & H8 & H8').
  injection H8' as <- <-. apply fs_call_ok in H8 as [T8 D8]. fold out in T8, D8, H.
  apply bind_ok_inv in H as (size & w9 & H9 & H).
  unfold fs_stat in H9.
  destruct (fs_call env (Stat out) w8') as [[u9 | e] w9'] eqn:E9;
    [| discriminate].
  injection H9 as _ <-. apply fs_call_ok in E9 as [T9 D9].
  apply bind_ok_inv in H as (now & w10 & H10 & H).
  injection H10 as _ <-. injection H as <- <-.
  cbn [res_success res_outputPath res_warnings res_errors].
  repeat split.
  - rewrite D9, D8. cbn [fs_effect]. unfold set_path.
    now rewrite String.eqb_refl.
  - exists config. unfold steps_events.
    rewrite T9, T8, T7, T6, T5, T4, T3, T2, T1. cbn [app].
    rewrite <- !app_assoc. cbn [app]. rewrite <- !app_assoc. reflexivity.
Qed.

(** What a run that reports success has done. *)
Lemma build_success_inv (w w' : World) (r : SEABuildResult) :
  build env self options w = (Ok r, w') ->
  res_success r = true ->
  res_outputPath r = out /\ res_warnings r = [] /\ res_errors r = []
  /\ (exists config,
        w_trace w'
        = (EvFs (Rm (tempDir self)) :: steps_events config
           ++ EvSpawn "node" ["--help"] :: w_trace w)%list)
  /\ (at_or_below env (tempDir self) out = false -> w_exists w' out = true).
Proof.
  rewrite build_unfold. unfold finally. intros H Hs.
  destruct (build_try env self options (Date_now env w) w) as [r3 w3] eqn:E3.
  destruct (cleanup_spec env self w3) as (w4 & Ec & Tc & Dok & Dfault).
  rewrite Ec in H. injection H as -> ->.
  unfold build_try, try_catch in E3.
  match type of E3 with
  | context [bind ?m ?k w] => destruct (bind m k w) as [[r1 | e] w1] eqn:Eb
  end.
  2: { rewrite failed_build_spec in E3. injection E3 as <- <-. discriminate. }
  injection E3 as -> ->.
  apply bind_ok_inv in Eb as (canUse & w1 & Ecan & Eb).
  destruct (canUseSEA_trace env self (sea_nodeVersion options) w)
    as (b & w1' & Ecan' & Hst & Tcan).
  rewrite Ecan' in Ecan. injection Ecan as -> ->.
  destruct canUse; cbn [negb] in Eb; [| discriminate].
  rewrite (Hst eq_refl) in Tcan.
  apply build_steps_ok in Eb as (_ & Hout & Hw & He & Dout & config & T).
  repeat split; try assumption.
  - exists config. rewrite Tc, T, Tcan. reflexivity.
  - intros Hunder.
    now rewrite (cleanup_keeps_outside env self w3 w' (Ok tt) out Ec Hunder).
Qed.

Lemma build_failure_inv (w w' : World) (r : SEABuildResult) :
  build env self options w = (Ok r, w') ->
  res_success r = false ->
  res_outputPath r = "" /\ res_size r = 0 /\ res_warnings r = []
  /\ exists e, res_errors r = [e].
Proof.
  rewrite build_unfold. unfold finally. intros H Hs.
  destruct (build_try env self options (Date_now env w) w) as [r3 w3] eqn:E3.
  destruct (cleanup_spec env self w3) as (w4 & Ec & _).
  rewrite Ec in H. injection H as -> ->.
  unfold build_try, try_catch in E3.
  match type of E3 with
  | context [bind ?m ?k w] => destruct (bind m k w) as [[r1 | e] w1] eqn:Eb
  end.
  - injection E3 as -> ->.
    apply bind_ok_inv in Eb as (canUse & w1 & _ & Eb).
    destruct canUse; cbn [negb] in Eb; [| discriminate].
    apply build_steps_ok in Eb as (Hok & _). congruence.
  - rewrite failed_build_spec in E3. injection E3 as <- <-.
    cbn. repeat split. now exists e.
Qed.

End RunFacts.

(** X13: the shape of every result of [SEABuilder.build]: it carries no
    warnings; a successful result has no errors and the requested output
    path; a failed result has the empty output path, size 0 and exactly one
    error message. *)
Theorem build_result_shape (env : Env) (self : SEABuilder)
  (options : SEABuildOptions) (w : World) :
  exists r w',
    build env self options w = (Ok r, w')
    /\ res_warnings r = []
    /\ if res_success r
       then res_errors r = [] /\ res_outputPath r = sea_output options
       else res_outputPath r = "" /\ res_size r = 0
            /\ exists e, res_errors r = [e].
Proof.
  destruct (build_returns env self options w) as (r & w' & E).
  exists r, w'. split; [exact E |].
  destruct (res_success r) eqn:Hs.
  - destruct (build_success_inv env self options w w' r E Hs)
      as (Hout & Hw & He & _).
    now repeat split.
  - destruct (build_failure_inv env self options w w' r E Hs)
      as (Hout & Hsz & Hw & He).
    now repeat split.
Qed.

(** X14: a run of [SEABuilder.build] that reports success has performed
    every step of the pipeline once and in the pipeline's order: the
    [node --help] probe, the creation of the temporary directory, the
    config file, the blob generation, the copy of the runtime, the
    signature removal (macOS and Windows), the injection, the signing (when
    asked, macOS and Windows), the move to the output path, the stat of the
    output, and last the removal of the temporary directory; nothing
    else. *)
Theorem successful_build_runs_every_step_in_order (env : Env)
  (self : SEABuilder) (options : SEABuildOptions) (w w' : World)
  (r : SEABuildResult) :
  build env self options w = (Ok r, w') ->
  res_success r = true ->
  exists config, new_events w w' = success_events env self options config.
Proof.
  intros E Hs.
  destruct (build_success_inv env self options w w' r E Hs)
    as (_ & _ & _ & (config & T) & _).
  exists config. apply new_events_app. rewrite T. unfold success_events.
  cbn [app]. rewrite <- !app_assoc. cbn [app]. rewrite <- !app_assoc.
  reflexivity.
Qed.

Lemma successful_build_runs_every_step_in_order_witness :
  exists config,
    new_events empty_world
      (snd (build good_env (new_SEABuilder good_env)
              (sea_options "node21" None None None) empty_world))
    = success_events good_env (new_SEABuilder good_env)
        (sea_options "node21" None None None) config.
Proof.
  destruct (build good_env (new_SEABuilder good_env)
              (sea_options "node21" None None None) empty_world)
    as [[r | e] w'] eqn:E; [| vm_compute in E; discriminate].
  apply (successful_build_runs_every_step_in_order good_env
           (new_SEABuilder good_env) (sea_options "node21" None None None)
           empty_world w' r E).
  vm_compute in E. now injection E as <- _.
Defined.

(** X15: after a run of [SEABuilder.build] that reports success the output
    file exists, provided the output path names nothing in the temporary
    directory (which the final cleanup removes, whatever spelling a path
    into it has). *)
Theorem successful_build_leaves_output (env : Env) (self : SEABuilder)
  (options : SEABuildOptions) (w w' : World) (r : SEABuildResult) :
  build env self options w = (Ok r, w') ->
  res_success r = true ->
  at_or_below env (tempDir self) (sea_output options) = false ->
  res_outputPath r = sea_output options
  /\ w_exists w' (sea_output options) = true.
Proof.
  intros E Hs Hu.
  destruct (build_success_inv env self options w w' r E Hs)
    as (Hout & _ & _ & _ & H).
  split; [exact Hout | now apply H].
Qed.

Lemma successful_build_leaves_output_witness :
  w_exists
    (snd (build good_env (new_SEABuilder good_env)
            (sea_options "node21" None None None) empty_world))
    "/proj/dist/app" = true.
Proof.
  destruct (build good_env (new_SEABuilder good_env)
              (sea_options "node21" None None None) empty_world)
    as [[r | e] w'] eqn:E; [| vm_compute in E; discriminate].
  apply (successful_build_leaves_output good_env
           (new_SEABuilder good_env) (sea_options "node21" None None None)
           empty_world w' r E).
  - vm_compute in E. now injection E as <- _.
  - reflexivity.
Defined.



(** ** What a run may do *)

Section Only.

Variable env : Env.
Variable ok : Event -> Prop.

Lemma only_ret {A} (a : A) : only ok (ret a).
Proof.
  intros w r w' H. injection H as <- <-. exists []. now split.
Qed.

Lemma only_throw {A} (msg : string) : only ok (@throw A msg).
Proof.
  intros w r w' H. injection H as <- <-. exists []. now split.
Qed.

(** The continuation only matters on the values [m] can return. *)
Lemma only_bind {A B} (m : M A) (k : A -> M B) :
  only ok m ->
  (forall a, (exists w w1, m w = (Ok a, w1)) -> only ok (k a)) ->
  only ok (bind m k).
Proof.
  intros Hm Hk w r w' H. unfold bind in H.
  destruct (m w) as [[a | e] w1] eqn:E.
  - destruct (Hm _ _ _ E) as (e1 & T1 & P1).
    destruct (Hk a (ex_intro _ w (ex_intro _ w1 E)) _ _ _ H)
      as (e2 & T2 & P2).
    exists (e2 ++ e1)%list. rewrite T2, T1, app_assoc.
    split; [reflexivity | now apply Forall_app].
  - injection H as <- <-. exact (Hm _ _ _ E).
Qed.

Lemma only_try_catch {A} (m : M A) (h : string -> M A) :
  only ok m -> (forall e, only ok (h e)) -> only ok (try_catch m h).
Proof.
  intros Hm Hh w r w' H. unfold try_catch in H.
  destruct (m w) as [[a | e] w1] eqn:E.
  - injection H as <- <-. exact (Hm _ _ _ E).
  - destruct (Hm _ _ _ E) as (e1 & T1 & P1).
    destruct (Hh e _ _ _ H) as (e2 & T2 & P2).
    exists (e2 ++ e1)%list. rewrite T2, T1, app_assoc.
    split; [reflexivity | now apply Forall_app].
Qed.

Lemma only_finally {A} (m : M A) (c : M unit) :
  only ok m -> only ok c -> only ok (finally m c).
Proof.
  intros Hm Hc w r w' H. unfold finally in H.
  destruct (m w) as [r1 w1] eqn:E.
  destruct (c w1) as [rc w2] eqn:Ec.
  destruct (Hm _ _ _ E) as (e1 & T1 & P1).
  destruct (Hc _ _ _ Ec) as (e2 & T2 & P2).
  assert (w' = w2) as -> by (destruct rc; now injection H).
  exists (e2 ++ e1)%list. rewrite T2, T1, app_assoc.
  split; [reflexivity | now apply Forall_app].
Qed.

Lemma only_date_now : only ok (date_now env).
Proof.
  intros w r w' H. injection H as <- <-. exists []. now split.
Qed.

Lemma only_fs_call (op : FsOp) : ok (EvFs op) -> only ok (fs_call env op).
Proof.
  intros Hop w r w' H. apply fs_call_inv in H as [T _].
  exists [EvFs op]. split; [exact T | now constructor].
Qed.

Lemma only_fs_stat (p : string) : ok (EvFs (Stat p)) -> only ok (fs_stat env p).
Proof.
  intros Hop w r w' H. unfold fs_stat in H.
  destruct (fs_call env (Stat p) w) as [[u | e] w1] eqn:E;
    injection H as <- <-; exact (only_fs_call _ Hop _ _ _ E).
Qed.

Lemma only_runCommand (command : string) (args : list string) :
  ok (EvSpawn command args) -> only ok (runCommand env command args).
Proof.
  intros Hop w r w' H. apply runCommand_inv in H as [T _].
  exists [EvSpawn command args]. split; [exact T | now constructor].
Qed.

End Only.

Ltac only_step :=
  match goal with
  | |- only _ (bind _ _) => apply only_bind; [| intros ? ?]
  | |- only _ (try_catch _ _) => apply only_try_catch; [| intros ?]
  | |- only _ (finally _ _) => apply only_finally
  | |- only _ (ret _) => apply only_ret
  | |- only _ (throw _) => apply only_throw
  | |- only _ (date_now _) => apply only_date_now
  | |- only _ (fs_stat _ _) => apply only_fs_stat
  | |- only _ (runCommand _ _ _) => apply only_runCommand
  | |- only _ (fs_call _ _) => apply only_fs_call
  | |- only _ (moveToFinalLocation _ _ _ _) => unfold moveToFinalLocation
  | |- only _ (if ?b then _ else _) => destruct b eqn:?
  | |- only _ (match ?x with _ => _ end) => destruct x eqn:?
  end.

Lemma moveToFinalLocation_ok (env : Env) (self : SEABuilder)
  (tempPath outputPath finalPath : string) (w w' : World) :
  moveToFinalLocation env self tempPath outputPath w = (Ok finalPath, w') ->
  finalPath = outputPath.
Proof.
  unfold moveToFinalLocation. intros H.
  apply bind_ok_inv in H as (u & w1 & _ & H). now injection H.
Qed.

Ltac may_solve :=
  repeat match goal with
         | H : String.eqb _ _ = true |- _ => apply String.eqb_eq in H
         | H : truthy _ = true |- _ => apply truthy_true in H
         | H : (_ && _) = true |- _ => apply andb_true_iff in H as [? ?]
         | H : exists _ _, moveToFinalLocation _ _ _ _ _ = (Ok _, _) |- _ =>
             destruct H as (? & ? & H);
             apply moveToFinalLocation_ok in H; subst
         end;
  cbn [build_may];
  first [ solve [eauto 15]
        | right; left; split; [reflexivity |]; unfold postject_args;
          destruct (String.eqb _ "macos"); reflexivity ].

(** X17: everything an invocation of [SEABuilder.build] does is on this
    list: it starts [node] (the probe and the blob generation), [npx
    postject] with the fixed resource name and fuse, and, only on macOS
    respectively Windows, [codesign] respectively [signtool] (to sign only
    when signing was asked for); it creates and removes no directory but
    its temporary directory, writes only the config file in it, copies
    only the running executable to the temporary binary, moves only that
    binary to the requested output path, stats only the output path, and
    never calls pkg-fetch. *)
Theorem build_does_only_its_steps (env : Env) (self : SEABuilder)
  (options : SEABuildOptions) (w : World) :
  Forall (build_may env self options)
    (new_events w (snd (build env self options w))).
Proof.
  assert (only (build_may env self options) (build env self options)) as H.
  { unfold build, build_try, failed_build, canUseSEA, cleanup.
    repeat first
      [ match goal with
        | |- only _ (build_steps _ _ _ _) => fail 1
        end
      | only_step ]; try may_solve.
    unfold build_steps, ensureTempDir.
    apply only_bind; [repeat only_step; may_solve | intros _ _].
    apply only_bind.
    { unfold createSEAConfig, convertAssetsToSEAFormat.
      repeat only_step; try may_solve;
        intros ? ? ? Hinj; injection Hinj as <- <-; exists []; now split. }
    intros config (w0 & w1 & Hc). apply createSEAConfig_ok in Hc as [_ Hblob].
    apply only_bind;
      [unfold generateBlob; repeat only_step; may_solve | intros _ _].
    apply only_bind;
      [unfold copyNodeBinary; repeat only_step; may_solve |].
    intros b (w2 & w3 & Hb). apply copyNodeBinary_ok in Hb as [-> _].
    rewrite Hblob.
    unfold removeSignature, injectBlob, signBinary.
    repeat only_step; may_solve. }
  destruct (build env self options w) as [r w'] eqn:E.
  destruct (H _ _ _ E) as (evs & T & P).
  cbn [snd]. now rewrite (new_events_app _ _ _ T).
Qed.

(** ** The orchestrator, in full *)

Section BatchFacts.

Variable env : Env.
Variable self : HybridBuilder.
Variable options : HybridBuildOptions.

Lemma analyze_loop_props (P : BuildDecision -> Prop) :
  (forall t w d w',
      decideBuildStrategy env self t options w = (Ok d, w') -> P d) ->
  forall targets decisions w,
  exists ds w',
    analyzeBuildDecisions_loop env self targets options decisions w
    = (Ok (decisions ++ ds)%list, w')
    /\ map dec_target ds = targets
    /\ Forall P ds.
Proof.
  intros HP targets. induction targets as [| t rest IH]; intros decisions w.
  - exists [], w. rewrite app_nil_r. repeat split. constructor.
  - cbn [analyzeBuildDecisions_loop]. unfold bind.
    destruct (decideBuildStrategy_returns env self t options w)
      as (dcs & w1 & E & Ht & _).
    rewrite E.
    destruct (IH (decisions ++ [dcs])%list w1) as (ds & w' & E' & Hm & Hf).
    exists (dcs :: ds), w'. rewrite E', <- app_assoc. cbn.
    split; [reflexivity |]. split; [now rewrite Ht, Hm |].
    constructor; [now apply (HP t w dcs w1) | exact Hf].
Qed.

Lemma buildSingleTarget_entry (decision : BuildDecision) (w : World) :
  exists result w',
    buildSingleTarget env self decision options w = (Ok result, w')
    /\ tr_target result = dec_target decision
    /\ tr_buildMode result = dec_buildMode decision
    /\ entry_consistent env self options result.
Proof.
  unfold buildSingleTarget, entry_consistent.
  destruct (dec_buildMode decision).
  - unfold bind.
    match goal with
    | |- context [build env ?sb ?o w] =>
        destruct (build_returns env sb o w) as (r & w' & E); rewrite E
    end.
    eexists _, _. repeat split.
  - eexists _, _. repeat split.
Qed.

Lemma build_targets_exact (decisions : list BuildDecision)
  (results : list TargetResult) (errors : list string) (w : World) :
  exists new w',
    build_targets env self decisions options results errors w
    = ((results ++ new, errors ++ flat_map errors_taken new)%list, w')
    /\ map tr_target new = map dec_target decisions
    /\ map tr_buildMode new = map dec_buildMode decisions
    /\ Forall (entry_consistent env self options) new.
Proof.
  revert results errors w.
  induction decisions as [| dcs rest IH]; intros results errors w.
  - exists [], w. cbn. rewrite !app_nil_r. repeat split. constructor.
  - cbn [build_targets].
    destruct (buildSingleTarget_entry dcs w)
      as (result & w1 & E & Ht & Hmode & Hc).
    rewrite E.
    match goal with
    | |- context [build_targets env self rest options ?rs ?es w1] =>
        destruct (IH rs es w1) as (new & w' & E' & Hm & Hb & Hf)
    end.
    exists (result :: new), w'. rewrite E'.
    cbn [flat_map map]. unfold errors_taken at 2.
    rewrite <- !app_assoc. cbn [app].
    split; [| split; [| split]].
    + destruct (res_success (tr_result result)); cbn [app];
        now rewrite <- ?app_assoc.
    + now rewrite Ht, Hm.
    + now rewrite Hmode, Hb.
    + now constructor.
Qed.

(** [HybridBuilder.build], step by step. *)
Lemma hybrid_build_inv (P : BuildDecision -> Prop) (w : World) :
  (forall t w0 d w',
      decideBuildStrategy env self t options w0 = (Ok d, w') -> P d) ->
  exists ds w1 r w',
    analyzeBuildDecisions env self options w = (Ok ds, w1)
    /\ Forall P ds
    /\ hybrid_build env self options w = (Ok r, w')
    /\ snd (build_targets env self ds options [] [] w1) = w'
    /\ map tr_target (agg_results r) = hyb_targets options
    /\ map tr_buildMode (agg_results r) = map dec_buildMode ds
    /\ Forall (entry_consistent env self options) (agg_results r)
    /\ agg_errors r = flat_map errors_taken (agg_results r)
    /\ agg_warnings r = []
    /\ agg_totalTime r = Date_now env w' - Date_now env w
    /\ agg_success r
       = (length (List.filter (fun t => res_success (tr_result t))
                    (agg_results r))
          =? length (agg_results r))%nat.
Proof.
  intros HP.
  destruct (analyze_loop_props P HP (hyb_targets options) [] w)
    as (ds & w1 & E1 & Hds & HPds).
  destruct (build_targets_exact ds [] [] w1)
    as (new & w2 & E2 & Hnew & Hmode & Hc).
  exists ds, w1. unfold hybrid_build, analyzeBuildDecisions, try_catch.
  unfold bind at 1. unfold date_now at 1. unfold bind at 1.
  rewrite E1. cbn [app]. unfold bind at 1. rewrite E2. cbn [app].
  unfold bind, date_now, ret. cbn [fst snd].
  eexists _, _. split; [reflexivity |]. split; [exact HPds |].
  split; [reflexivity |].
  cbn [agg_results agg_success agg_errors agg_warnings agg_totalTime].
  repeat split; try assumption. congruence.
Qed.

End BatchFacts.

(** X18: a batch without targets: [HybridBuilder.build] does nothing (the
    world is left as it was) and reports success over an empty list of
    results, with no errors and no warnings. *)
Theorem hybrid_build_without_targets (env : Env) (self : HybridBuilder)
  (options : HybridBuildOptions) (w : World) :
  hyb_targets options = [] ->
  exists r,
    hybrid_build env self options w = (Ok r, w)
    /\ agg_success r = true /\ agg_results r = []
    /\ agg_errors r = [] /\ agg_warnings r = [].
Proof.
  intros H. unfold hybrid_build, analyzeBuildDecisions, try_catch, bind,
    date_now, ret. rewrite H. cbn. eexists. repeat split.
Qed.

Lemma hybrid_build_without_targets_witness :
  exists r,
    hybrid_build good_env (new_HybridBuilder good_env)
      (hybrid_options [] None None) empty_world = (Ok r, empty_world)
    /\ agg_success r = true /\ agg_results r = []
    /\ agg_errors r = [] /\ agg_warnings r = [].
Proof.
  apply (hybrid_build_without_targets good_env (new_HybridBuilder good_env)
           (hybrid_options [] None None) empty_world eq_refl).
Defined.

(** X19: the aggregate error list of [HybridBuilder.build] is exactly the
    concatenation, in target order, of the error lists of the failed
    results: nothing is added for a target that succeeded and nothing else
    is ever put into it; the aggregate warning list is always empty, so the
    warnings of a target are never passed on. *)
Theorem hybrid_errors_are_the_failed_results_errors (env : Env)
  (self : HybridBuilder) (options : HybridBuildOptions) (w : World) :
  exists r w',
    hybrid_build env self options w = (Ok r, w')
    /\ agg_errors r = flat_map errors_taken (agg_results r)
    /\ agg_warnings r = [].
Proof.
  destruct (hybrid_build_inv env self options (fun _ => True) w)
    as (ds & w1 & r & w' & _ & _ & E & _ & _ & _ & _ & He & Hw & _);
    [trivial |].
  now exists r, w'.
Qed.

(** X20: the traditional branch is a placeholder: every result whose mode is
    traditional is the fixed failed result naming the target's output path,
    and a result whose mode is 'sea' has the output path of the SEA result;
    therefore a batch reports success only if every one of its targets was
    built in 'sea' mode and succeeded. *)
Theorem hybrid_success_needs_sea_everywhere (env : Env)
  (self : HybridBuilder) (options : HybridBuildOptions) (w : World) :
  exists r w',
    hybrid_build env self options w = (Ok r, w')
    /\ Forall (entry_consistent env self options) (agg_results r)
    /\ (agg_success r = true ->
        Forall (fun t => tr_buildMode t = Sea
                         /\ res_success (tr_result t) = true)
          (agg_results r)).
Proof.
  destruct (hybrid_build_inv env self options (fun _ => True) w)
    as (ds & w1 & r & w' & _ & _ & E & _ & _ & _ & Hc & _ & _ & _ & Hs);
    [trivial |].
  exists r, w'. split; [exact E |]. split; [exact Hc |].
  rewrite Hs. intros Hall. apply Nat.eqb_eq in Hall.
  pose proof (filter_partition_length
                (fun t => res_success (tr_result t)) (agg_results r)) as Hlen.
  apply List.Forall_forall. intros t Hin.
  assert (res_success (tr_result t) = true) as Hok.
  { destruct (res_success (tr_result t)) eqn:Hr; [reflexivity |].
    assert (In t (List.filter (fun t => negb (res_success (tr_result t)))
                    (agg_results r))) as Hf
        by (apply filter_In; split; [exact Hin | now rewrite Hr]).
    destruct (List.filter (fun t => negb (res_success (tr_result t)))
                (agg_results r)); [destruct Hf | cbn in Hlen; lia]. }
  split; [| exact Hok].
  rewrite List.Forall_forall in Hc. specialize (Hc t Hin).
  unfold entry_consistent in Hc.
  destruct (tr_buildMode t); [reflexivity |].
  destruct Hc as [_ Hp]. rewrite Hp in Hok. discriminate.
Qed.

Lemma hybrid_success_needs_sea_everywhere_witness :
  exists r w',
    hybrid_build good_env (new_HybridBuilder good_env)
      (hybrid_options [target_of "node21"; target_of "node22"] None None)
      empty_world = (Ok r, w')
    /\ map tr_buildMode (agg_results r) = [Sea; Sea].
Proof.
  destruct (hybrid_success_needs_sea_everywhere good_env
              (new_HybridBuilder good_env)
              (hybrid_options [target_of "node21"; target_of "node22"]
                 None None)
              empty_world) as (r & w' & E & _ & H).
  exists r, w'. split; [exact E |].
  assert (agg_success r = true /\ length (agg_results r) = 2%nat) as [Hs Hl].
  { vm_compute in E. injection E as <- _. split; reflexivity. }
  specialize (H Hs). clear E Hs.
  destruct (agg_results r) as [| a [| b [| c l]]]; try discriminate Hl.
  inversion H as [| ? ? [Ha _] H']. inversion H' as [| ? ? [Hb _] _].
  cbn [map]. now rewrite Ha, Hb.
Defined.

(** X21: with [crossCompile = true] and no forced mode, every result of the
    batch is the traditional placeholder; so such a batch with at least one
    target never reports success, and its error list is the placeholder
    message once per target. *)
Theorem crossCompile_batch_is_all_placeholders (env : Env)
  (self : HybridBuilder) (options : HybridBuildOptions) (w : World) :
  hyb_crossCompile options = Some true ->
  forced_mode (hyb_forceBuildMode options) = None ->
  exists r w',
    hybrid_build env self options w = (Ok r, w')
    /\ Forall (fun t => tr_buildMode t = Traditional) (agg_results r)
    /\ agg_errors r
       = repeat "Traditional PKG build not yet integrated in hybrid builder"
           (length (hyb_targets options))
    /\ agg_success r
       = match hyb_targets options with [] => true | _ => false end.
Proof.
  intros Hc Hf.
  destruct (hybrid_build_inv env self options
              (fun d => dec_buildMode d = Traditional) w)
    as (ds & w1 & r & w' & _ & Hds & E & _ & Ht & Hm & Hcons & He & _ & _ & Hs).
  { intros t w0 d w0' Hd.
    destruct (decideBuildStrategy_returns env self t options w0)
      as (d' & w'' & E' & _ & _ & _ & H).
    rewrite E' in Hd. injection Hd as <- _. now apply H. }
  exists r, w'. split; [exact E |].
  assert (Forall (fun t => tr_buildMode t = Traditional) (agg_results r))
    as Hall.
  { clear - Hm Hds. revert ds Hm Hds.
    induction (agg_results r) as [| t l IH]; intros ds Hm Hds;
      [constructor |].
    destruct ds as [| d ds]; [discriminate |].
    injection Hm as Hd Hm. inversion Hds as [| ? ? Hd' Hds']. subst.
    constructor; [congruence | now apply (IH ds)]. }
  split; [exact Hall |].
  rewrite <- Ht, length_map, He, Hs. clear - Hall Hcons.
  revert Hall Hcons. generalize (agg_results r) as l.
  induction l as [| t l IH]; intros Hall Hcons; [split; reflexivity |].
  inversion Hall as [| ? ? Hmode Hall']. inversion Hcons as [| ? ? Hc Hcons'].
  subst. unfold entry_consistent in Hc. rewrite Hmode in Hc.
  destruct Hc as [_ Hp]. destruct (IH Hall' Hcons') as [IHe _].
  cbn [flat_map length repeat List.filter]. unfold errors_taken at 1.
  rewrite Hp. cbn. rewrite IHe. split; [reflexivity |].
  apply Nat.eqb_neq.
  pose proof (filter_partition_length
                (fun t => res_success (tr_result t)) l) as Hlen.
  cbv beta in Hlen. intros Heq. rewrite Heq in Hlen. lia.
Qed.

Lemma crossCompile_batch_is_all_placeholders_witness :
  exists r w',
    hybrid_build good_env (new_HybridBuilder good_env)
      (hybrid_options [target_of "node21"; target_of "node18"] None
         (Some true))
      empty_world = (Ok r, w')
    /\ agg_success r = false.
Proof.
  destruct (crossCompile_batch_is_all_placeholders good_env
              (new_HybridBuilder good_env)
              (hybrid_options [target_of "node21"; target_of "node18"] None
                 (Some true))
              empty_world eq_refl eq_refl) as (r & w' & E & _ & _ & H).
  exists r, w'. split; [exact E | exact H].
Defined.

(** ** The resolver, in full *)

Ltac includes_cases H :=
  apply array_includes_In in H;
  cbn [In map fst EXTENDED_NODE_VERSIONS SUPPORTED_PLATFORMS
       SUPPORTED_ARCHITECTURES] in H;
  repeat (destruct H as [H | H]; [symmetry in H; subst |]); [.. | destruct H].

(** X22: all the outcomes of [ExtendedPkgFetch.fetch].  It rejects, in this
    order and without touching anything, a version that is not extended, a
    platform and an architecture outside its lists; otherwise it probes the
    cache path once, returns that path on a hit, and on a miss always hands
    over to pkg-fetch's [need] for node18 with the same platform and
    architecture (the download never succeeds); it never fails for want of
    a fallback entry. *)
Theorem fetch_cases (env : Env) (self : ExtendedPkgFetch)
  (options : ExtendedFetchOptions) (w : World) :
  let v := fo_nodeRange options in
  let p := fo_platform options in
  let a := fo_arch options in
  if negb (isExtendedVersion v) then
    fetch env self options w
    = (Throw ("Node.js version " +:+ v
              +:+ " is not supported by extended pkg-fetch"), w)
  else if negb (array_includes SUPPORTED_PLATFORMS p) then
    fetch env self options w
    = (Throw ("Platform " +:+ p +:+ " is not supported"), w)
  else if negb (array_includes SUPPORTED_ARCHITECTURES a) then
    fetch env self options w
    = (Throw ("Architecture " +:+ a +:+ " is not supported"), w)
  else
    exists version,
      lookup_key EXTENDED_NODE_VERSIONS v = Some version
      /\ let localPath := generateLocalPath env self p a version in
         let w1 := log_event (EvFs (Access localPath)) w in
         match fs_fault env (Access localPath) w with
         | None => fetch env self options w = (Ok localPath, w1)
         | Some _ => fetch env self options w = need env "node18" p a w1
         end.
Proof.
  intros v p a. subst v p a.
  unfold fetch, getBinaryInfo, bind.
  destruct (isExtendedVersion (fo_nodeRange options)) eqn:Hv;
    cbn [negb]; [| reflexivity].
  destruct (array_includes SUPPORTED_PLATFORMS (fo_platform options));
    cbn [negb]; [| reflexivity].
  destruct (array_includes SUPPORTED_ARCHITECTURES (fo_arch options));
    cbn [negb]; [| reflexivity].
  assert (exists version,
             lookup_key EXTENDED_NODE_VERSIONS (fo_nodeRange options)
             = Some version
             /\ lookup_key fallbackMap (fo_nodeRange options) = Some "node18")
    as (version & Hver & Hfb).
  { apply isExtendedVersion_cases in Hv as [-> | [-> | ->]];
      eexists; split; reflexivity. }
  exists version. split; [exact Hver |]. rewrite Hver. cbn [default ret].
  cbn [bi_localPath]. unfold binaryExists, try_catch, bind, fs_call, ret.
  cbv zeta.
  destruct (fs_fault env _ w) as [msg |]; [| reflexivity].
  unfold downloadOfficialBinary, throw, fallbackToClosestVersion,
    get_property.
  now rewrite Hfb.
Qed.

Lemma fetch_cases_witness :
  fst (fetch good_env {| cacheDir := "/cache" |}
         {| fo_nodeRange := "node21"; fo_platform := "linux";
            fo_arch := "x86"; fo_forceBuild := None |} empty_world)
  = Throw "Architecture x86 is not supported".
Proof.
  exact (f_equal fst
           (fetch_cases good_env {| cacheDir := "/cache" |}
              {| fo_nodeRange := "node21"; fo_platform := "linux";
                 fo_arch := "x86"; fo_forceBuild := None |} empty_world)).
Defined.

(** X23: the resolver's range validator accepts exactly the ranges that
    node-support's validator accepts: its own table of extended versions
    adds nothing. *)
Theorem extended_validator_adds_nothing (v : string) :
  extended_enhancedIsValidNodeRange v = enhancedIsValidNodeRange v.
Proof.
  unfold extended_enhancedIsValidNodeRange.
  destruct (array_includes (map fst EXTENDED_NODE_VERSIONS) v) eqn:H;
    [| reflexivity].
  includes_cases H; reflexivity.
Qed.

(** X24: the binary information [getBinaryInfo] returns: the request is
    left untouched, the version is the one the table gives the range, and
    the download URL is well formed: every accepted platform has a release
    name (linux, darwin or win32) and every accepted architecture is x64 or
    arm64, so no part of it is ever undefined; the archive is a [.zip] for
    Windows and a [.tar.xz] otherwise. *)
Theorem binary_url_is_well_formed (env : Env) (self : ExtendedPkgFetch)
  (options : ExtendedFetchOptions) (w w' : World) (bi : ExtendedBinaryInfo) :
  getBinaryInfo env self options w = (Ok bi, w') ->
  w' = w
  /\ bi_nodeRange bi = fo_nodeRange options
  /\ bi_platform bi = fo_platform options
  /\ bi_arch bi = fo_arch options
  /\ In (bi_nodeRange bi, bi_version bi) EXTENDED_NODE_VERSIONS
  /\ In (bi_arch bi) ["x64"; "arm64"]
  /\ exists nodePlatform,
       In (bi_platform bi, nodePlatform)
          [("linux", "linux"); ("macos", "darwin"); ("win", "win32");
           ("alpine", "linux"); ("linuxstatic", "linux")]
       /\ bi_url bi
          = "https://nodejs.org/dist/v" +:+ bi_version bi +:+ "/node-v"
            +:+ bi_version bi +:+ "-" +:+ nodePlatform +:+ "-"
            +:+ bi_arch bi
            +:+ (if String.eqb (bi_platform bi) "win"
                 then ".zip" else ".tar.xz").
Proof.
  unfold getBinaryInfo.
  destruct (isExtendedVersion (fo_nodeRange options)) eqn:Hv;
    cbn [negb]; [| discriminate].
  destruct (array_includes SUPPORTED_PLATFORMS (fo_platform options)) eqn:Hp;
    cbn [negb]; [| discriminate].
  destruct (array_includes SUPPORTED_ARCHITECTURES (fo_arch options)) eqn:Ha;
    cbn [negb]; [| discriminate].
  intros H. injection H as <- <-.
  cbn [bi_nodeRange bi_platform bi_arch bi_version bi_url].
  destruct options as [v p a fb].
  cbn [fo_nodeRange fo_platform fo_arch] in *.
  unfold isExtendedVersion in Hv.
  includes_cases Hv; includes_cases Hp; includes_cases Ha;
    (do 4 (split; [reflexivity |]));
    (split; [cbn; tauto |]); (split; [cbn; tauto |]);
    eexists; (split; [| reflexivity]); cbn; tauto.
Qed.

Lemma binary_url_is_well_formed_witness :
  exists bi,
    fst (getBinaryInfo good_env {| cacheDir := "/cache" |}
           {| fo_nodeRange := "node20"; fo_platform := "macos";
              fo_arch := "arm64"; fo_forceBuild := None |} empty_world)
    = Ok bi
    /\ bi_url bi
       = "https://nodejs.org/dist/v20.11.1/node-v20.11.1-darwin-arm64.tar.xz".
Proof.
  eexists. split; [reflexivity |].
  destruct (binary_url_is_well_formed good_env {| cacheDir := "/cache" |}
              {| fo_nodeRange := "node20"; fo_platform := "macos";
                 fo_arch := "arm64"; fo_forceBuild := None |}
              empty_world empty_world _ eq_refl)
    as (_ & _ & _ & _ & _ & _ & plat & _ & H).
  reflexivity.
Defined.

(** X25: the validator and the resolver disagree on the architecture x86:
    for every extended version and every supported platform the target with
    [arch = x86] passes [validateTarget], yet [fetch] rejects it before
    doing anything. *)
Theorem x86_is_valid_but_not_fetchable (env : Env) (self : ExtendedPkgFetch)
  (v p : string) (forceBuild : option bool) (w : World) :
  isExtendedVersion v = true ->
  array_includes SUPPORTED_PLATFORMS p = true ->
  validateTarget {| nodeRange := v; platform := p; arch := "x86" |} = Valid
  /\ fetch env self
       {| fo_nodeRange := v; fo_platform := p; fo_arch := "x86";
          fo_forceBuild := forceBuild |} w
     = (Throw "Architecture x86 is not supported", w).
Proof.
  intros Hv Hp. split.
  - unfold isExtendedVersion in Hv.
    includes_cases Hv; includes_cases Hp; reflexivity.
  - unfold fetch, getBinaryInfo, bind.
    cbn [fo_nodeRange fo_platform fo_arch]. now rewrite Hv, Hp.
Qed.

Lemma x86_is_valid_but_not_fetchable_witness :
  validateTarget {| nodeRange := "node22"; platform := "win"; arch := "x86" |}
  = Valid
  /\ fetch good_env {| cacheDir := "/cache" |}
       {| fo_nodeRange := "node22"; fo_platform := "win"; fo_arch := "x86";
          fo_forceBuild := None |} empty_world
     = (Throw "Architecture x86 is not supported", empty_world).
Proof.
  apply (x86_is_valid_but_not_fetchable good_env {| cacheDir := "/cache" |}
           "node22" "win" None empty_world); reflexivity.
Defined.
